(** * spotter-lambdas: the post image processor

    A shallow embedding of the two Lambda handlers of the repository,

      - [src/post-image-processor/index_with_bedrock.mjs]
        (Rekognition labels + Titan embeddings), and
      - [src/post-image-processor/index_old.mjs]
        (GPT-4o-mini description + OpenAI embeddings),

    and the properties of the enrichment pipeline they implement.

    Conventions of the model.

    - A JavaScript string is a [string] holding its UTF-8 bytes.  Splitting
      on ['/'] and ['.'], concatenation and the replacement of ['+'] do not
      depend on the encoding; [trim] knows the UTF-8 form of every white
      space and line terminator of ECMAScript; [toLowerCase] folds the
      letters A-Z and leaves every other byte as it is (the labels of the
      detector are ASCII).
    - The remote services (S3, Rekognition, Bedrock, OpenAI, MongoDB, Qdrant)
      and the libraries [bson] and [uuid] are an environment [Env] of
      oracles.  An oracle is asked with the number of remote calls made so
      far, so that a service may answer the same request differently at
      different times.
    - An [await]ed call either yields a value or throws; the handler is a
      computation in a state-and-exception monad whose state holds the
      [posts] collection, the vector index and the list of remote calls made.
    - [console.log], [console.warn] and [console.error] are not modelled.
    - [mongo.close()] in the [finally] block is taken not to throw. *)

From Stdlib Require Import ZArith String Ascii Strings.Byte List QArith.
From stdpp Require Import gmap strings list fin_maps sorting pretty.

Local Open Scope string_scope.
Local Open Scope list_scope.

(** ** Exceptions *)

(** What a [catch] clause receives: an [Error] object, of which the handlers
    read the [message] only. *)
Record Error := mkError { name : string; message : string }.

(** ** The built-in functions the handlers use *)

Module JS.

Definition chars (s : string) : list ascii := list_ascii_of_string s.
Definition str (l : list ascii) : string := string_of_list_ascii l.
Definition of_bytes (l : list nat) : string := str (map ascii_of_nat l).

(** The double-quote character, as a one-character string. *)
Definition dquote : string := of_bytes [34].

(** [s.split(sep)] for a one-character separator: never the empty array. *)
Fixpoint split (sep : ascii) (s : string) : list string :=
  match s with
  | EmptyString => [EmptyString]
  | String c s' =>
      if Ascii.eqb c sep then EmptyString :: split sep s'
      else match split sep s' with
           | seg :: segs => String c seg :: segs
           | [] => [String c EmptyString]
           end
  end.

(** [arr.join(sep)] on an array of strings. *)
Fixpoint join (sep : string) (l : list string) : string :=
  match l with
  | [] => ""
  | [x] => x
  | x :: rest => x +:+ sep +:+ join sep rest
  end.

(** [s.replace(/\+/g, " ")]. *)
Fixpoint replace_plus (s : string) : string :=
  match s with
  | EmptyString => EmptyString
  | String c s' =>
      String (if Ascii.eqb c "+"%char then " "%char else c) (replace_plus s')
  end.

(** [s.toLowerCase()] on the ASCII letters. *)
Definition lower_char (c : ascii) : ascii :=
  let n := nat_of_ascii c in
  if (65 <=? n)%nat && (n <=? 90)%nat then ascii_of_nat (n + 32) else c.

Fixpoint toLowerCase (s : string) : string :=
  match s with
  | EmptyString => EmptyString
  | String c s' => String (lower_char c) (toLowerCase s')
  end.

(** The WhiteSpace and LineTerminator code points of ECMAScript, each as
    its UTF-8 bytes: TAB, LF, VT, FF, CR, SP, U+00A0, U+1680,
    U+2000..U+200A, U+2028, U+2029, U+202F, U+205F, U+3000, U+FEFF. *)
Definition white_space : list (list nat) :=
  [ [9]; [10]; [11]; [12]; [13]; [32]; [194; 160]; [225; 154; 128] ]
  ++ map (fun k => [226; 128; 128 + k]) (seq 0 11)
  ++ [ [226; 128; 168]; [226; 128; 169]; [226; 128; 175];
       [226; 129; 159]; [227; 128; 128]; [239; 187; 191] ].

Fixpoint strip_prefix (p l : list ascii) : option (list ascii) :=
  match p, l with
  | [], _ => Some l
  | a :: p', b :: l' => if Ascii.eqb a b then strip_prefix p' l' else None
  | _ :: _, [] => None
  end.

Fixpoint strip_first (ps : list (list ascii)) (l : list ascii)
  : option (list ascii) :=
  match ps with
  | [] => None
  | p :: ps' =>
      match strip_prefix p l with
      | Some l' => Some l'
      | None => strip_first ps' l
      end
  end.

Fixpoint strip_all (fuel : nat) (ps : list (list ascii)) (l : list ascii)
  : list ascii :=
  match fuel with
  | O => l
  | S fuel' =>
      match strip_first ps l with
      | Some l' => strip_all fuel' ps l'
      | None => l
      end
  end.

Definition ws_fwd : list (list ascii) := map (map ascii_of_nat) white_space.
Definition ws_bwd : list (list ascii) := map (@rev ascii) ws_fwd.

Definition trimStart_chars (l : list ascii) : list ascii :=
  strip_all (length l) ws_fwd l.
Definition trimEnd_chars (l : list ascii) : list ascii :=
  rev (strip_all (length l) ws_bwd (rev l)).

(** [s.trim()]. *)
Definition trim (s : string) : string :=
  str (trimEnd_chars (trimStart_chars (chars s))).

(** *** decodeURIComponent *)

Definition hex_val (c : ascii) : option nat :=
  let n := nat_of_ascii c in
  if (48 <=? n)%nat && (n <=? 57)%nat then Some (n - 48)%nat
  else if (65 <=? n)%nat && (n <=? 70)%nat then Some (n - 55)%nat
  else if (97 <=? n)%nat && (n <=? 102)%nat then Some (n - 87)%nat
  else None.

(** A URI is read as literal characters and [%XX] escapes. *)
Inductive token := Lit (c : ascii) | Esc (b : nat).

Fixpoint tokens (s : string) : option (list token) :=
  match s with
  | EmptyString => Some []
  | String c rest =>
      if Ascii.eqb c "%"%char then
        match rest with
        | String h (String l rest') =>
            match hex_val h, hex_val l, tokens rest' with
            | Some x, Some y, Some ts => Some (Esc (16 * x + y) :: ts)
            | _, _, _ => None
            end
        | _ => None
        end
      else cons (Lit c) <$> tokens rest
  end.

Definition between (lo hi b : nat) : bool := (lo <=? b)%nat && (b <=? hi)%nat.
Definition cont (b : nat) : bool := between 128 191 b.

(** The second octet of a three- and of a four-octet sequence is
    restricted by the first one (no overlong forms, no surrogates, nothing
    above U+10FFFF). *)
Definition second3 (b b1 : nat) : bool :=
  if (b =? 224)%nat then between 160 191 b1
  else if (b =? 237)%nat then between 128 159 b1
  else cont b1.
Definition second4 (b b1 : nat) : bool :=
  if (b =? 240)%nat then between 144 191 b1
  else if (b =? 244)%nat then between 128 143 b1
  else cont b1.

(** The escaped octets must form well-formed UTF-8. *)
Fixpoint assemble (ts : list token) : option (list ascii) :=
  match ts with
  | [] => Some []
  | Lit c :: ts' => cons c <$> assemble ts'
  | Esc b :: ts' =>
      if (b <? 128)%nat then cons (ascii_of_nat b) <$> assemble ts'
      else if between 194 223 b then
        match ts' with
        | Esc b1 :: ts2 =>
            if cont b1
            then app (map ascii_of_nat [b; b1]) <$> assemble ts2
            else None
        | _ => None
        end
      else if between 224 239 b then
        match ts' with
        | Esc b1 :: Esc b2 :: ts3 =>
            if second3 b b1 && cont b2
            then app (map ascii_of_nat [b; b1; b2]) <$> assemble ts3
            else None
        | _ => None
        end
      else if between 240 244 b then
        match ts' with
        | Esc b1 :: Esc b2 :: Esc b3 :: ts4 =>
            if second4 b b1 && cont b2 && cont b3
            then app (map ascii_of_nat [b; b1; b2; b3]) <$> assemble ts4
            else None
        | _ => None
        end
      else None
  end.

Definition URIError : Error := mkError "URIError" "URI malformed".

(** [decodeURIComponent(s)]: the decoded string, or a thrown [URIError]. *)
Definition decodeURIComponent (s : string) : Error + string :=
  match tokens s ≫= assemble with
  | Some l => inr (str l)
  | None => inl URIError
  end.

(** *** Buffer.toString("base64") *)

Definition b64_alphabet : string :=
  "ABCDEFGHIJKLMNOPQRSTUVWXYZabcdefghijklmnopqrstuvwxyz0123456789+/".
Definition b64_char (n : N) : ascii :=
  nth (N.to_nat n) (chars b64_alphabet) "="%char.

Fixpoint base64_chars (l : list byte) : list ascii :=
  match l with
  | [] => []
  | [a] =>
      let x := Byte.to_N a in
      [ b64_char (N.shiftr x 2); b64_char (N.shiftl (N.land x 3) 4);
        "="%char; "="%char ]
  | [a; b] =>
      let x := Byte.to_N a in
      let y := Byte.to_N b in
      [ b64_char (N.shiftr x 2);
        b64_char (N.lor (N.shiftl (N.land x 3) 4) (N.shiftr y 4));
        b64_char (N.shiftl (N.land y 15) 2); "="%char ]
  | a :: b :: c :: rest =>
      let x := Byte.to_N a in
      let y := Byte.to_N b in
      let z := Byte.to_N c in
      [ b64_char (N.shiftr x 2);
        b64_char (N.lor (N.shiftl (N.land x 3) 4) (N.shiftr y 4));
        b64_char (N.lor (N.shiftl (N.land y 15) 2) (N.shiftr z 6));
        b64_char (N.land z 63) ] ++ base64_chars rest
  end.

Definition base64 (l : list byte) : string := str (base64_chars l).

(** *** JSON.stringify, for the flat objects the handlers return *)

Definition hex_digit (n : nat) : ascii :=
  nth n (chars "0123456789abcdef") "0"%char.

Definition escape_char (c : ascii) : string :=
  let n := nat_of_ascii c in
  if (n =? 34)%nat then of_bytes [92; 34]
  else if (n =? 92)%nat then of_bytes [92; 92]
  else if (n =? 8)%nat then "\b"
  else if (n =? 9)%nat then "\t"
  else if (n =? 10)%nat then "\n"
  else if (n =? 12)%nat then "\f"
  else if (n =? 13)%nat then "\r"
  else if (n <? 32)%nat
       then "\u00" +:+ str [hex_digit (n / 16); hex_digit (n mod 16)]
  else String c EmptyString.

Fixpoint escape (s : string) : string :=
  match s with
  | EmptyString => EmptyString
  | String c s' => escape_char c +:+ escape s'
  end.

Definition quote (s : string) : string := dquote +:+ escape s +:+ dquote.

Inductive json := JBool (b : bool) | JString (s : string).

Definition stringify_value (v : json) : string :=
  match v with
  | JBool true => "true"
  | JBool false => "false"
  | JString s => quote s
  end.

Definition stringify_object (fields : list (string * json)) : string :=
  "{" +:+ join "," (map (fun kv => quote kv.1 +:+ ":" +:+ stringify_value kv.2) fields)
  +:+ "}".

End JS.

(** ** Data model *)

(** The field values of a post document that the model covers: [null],
    booleans and strings.  A field that is absent reads as [undefined]. *)
Inductive bson := BNull | BBool (b : bool) | BString (s : string).

(** A document of the [posts] collection: field name to value. *)
Abbreviation doc := (gmap string bson).

(** A value of a Qdrant payload. *)
Inductive value := VUndefined | VBson (b : bson) | VDate (ms : Z).

(** A JSON number of an embedding; the handlers only carry them. *)
Abbreviation vector := (list Q).

(** One point of a Qdrant upsert: [{ id, vector, payload }].  The [vector]
    is [None] when the expression it was read from is [undefined]. *)
Record point := mkPoint {
  point_id : string;
  point_vector : option vector;
  point_payload : list (string * value)
}.

(** [event.Records[i]]: [record.s3.bucket.name] and [record.s3.object.key]. *)
Record S3Record := mkRecord { bucket_name : string; object_key : string }.
Record Event := mkEvent { Records : list S3Record }.

(** What the handler resolves to. *)
Record Response := mkResponse { statusCode : Z; body : string }.

(** *** Requests and responses of the remote services *)

Record GetObjectCommand := mkGetObject { Bucket : string; Key : string }.

(** The body of an S3 object: the chunks of its [data] events, closed by
    [end] ([None]) or by [error]. *)
Record Stream := mkStream { chunks : list (list byte); stream_error : option Error }.

Record DetectLabelsCommand := mkDetectLabels {
  Image_Bytes : list byte; MaxLabels : Z; MinConfidence : Z
}.
Record Label := mkLabel { Name : string; Confidence : Q }.

(** [InvokeModelCommand]; [inputText] is the one field of its JSON body. *)
Record InvokeModelCommand := mkInvokeModel {
  modelId : string; contentType : string; accept : string; inputText : string
}.

(** [openai.chat.completions.create]: the model, the system message, and the
    text and the image url of the user message. *)
Record ChatRequest := mkChat {
  chat_model : string; system_content : string; user_text : string; image_url : string
}.
Record EmbeddingsRequest := mkEmbeddings { embeddings_model : string; input : string }.

(** The remote calls a handler makes, in the order it makes them. *)
Inductive call :=
| MongoConnect
| FindOne (oid : string)
| S3Send (cmd : GetObjectCommand)
| RekognitionSend (cmd : DetectLabelsCommand)
| BedrockSend (cmd : InvokeModelCommand)
| ChatCompletionsCreate (req : ChatRequest)
| EmbeddingsCreate (req : EmbeddingsRequest)
| UpdateOne (oid : string) (set : list (string * bson))
| QdrantUpsert (collection : string) (points : list point)
| MongoClose.

(** ** The environment *)

(** Every oracle that stands for a remote call takes the time at which it is
    asked (the number of remote calls made before it).
    - [ObjectId s] is [new ObjectId(s)]: the key of the document in [posts],
      or the error the constructor throws.
    - [uuidv4 n] is the [n]-th identifier the process draws.
    - [posts_findOne], [posts_updateOne], [qdrant_upsert] and [mongo_connect]
      say whether the call fails; their effect on success is in the model.
    - [bedrock_send] answers with the [embedding] of the parsed response
      body ([None] when the body has none), or with the error that the call
      or [JSON.parse] throws.
    - [chat_create] answers with the [message.content] of each choice
      ([None] for [null]); [embeddings_create] with the [embedding] of each
      entry of [data]. *)
Record Env := mkEnv {
  ObjectId : string -> Error + string;
  uuidv4 : nat -> string;
  Date_now : nat -> Z;
  mongo_connect : nat -> option Error;
  posts_findOne : nat -> string -> option Error;
  posts_updateOne : nat -> string -> list (string * bson) -> option Error;
  s3_send : nat -> GetObjectCommand -> Error + Stream;
  rekognition_send : nat -> DetectLabelsCommand -> Error + list Label;
  bedrock_send : nat -> InvokeModelCommand -> Error + option vector;
  chat_create : nat -> ChatRequest -> Error + list (option string);
  embeddings_create : nat -> EmbeddingsRequest -> Error + list (option vector);
  qdrant_upsert : nat -> string -> list point -> option Error
}.

(** ** State and the monad of the handlers *)

Record state := mkState {
  posts : gmap string doc;               (* spotter.posts, by ObjectId *)
  index : gmap (string * string) point;  (* Qdrant, by (collection, id) *)
  drawn : nat;                           (* identifiers drawn so far *)
  trace : list call                      (* remote calls made so far *)
}.

Definition log (c : call) (st : state) : state :=
  mkState (posts st) (index st) (drawn st) (trace st ++ [c]).

Definition now (st : state) : nat := length (trace st).

Definition M (A : Type) : Type := state -> (Error + A) * state.

Definition ret {A} (a : A) : M A := fun st => (inr a, st).
Definition throw {A} (e : Error) : M A := fun st => (inl e, st).
Definition bind {A B} (m : M A) (k : A -> M B) : M B :=
  fun st =>
    match m st with
    | (inr a, st') => k a st'
    | (inl e, st') => (inl e, st')
    end.

(** A pure expression that may throw. *)
Definition lift {A} (r : Error + A) : M A :=
  match r with inr a => ret a | inl e => throw e end.

(** An awaited remote call that changes nothing in the model. *)
Definition remote {A} (c : call) (answer : nat -> Error + A) : M A :=
  fun st => (answer (now st), log c st).

Declare Scope js_scope.
Delimit Scope js_scope with js.
Notation "x <- c1 ;; c2" := (bind c1 (fun x => c2))
  (at level 100, c1 at next level, right associativity) : js_scope.
Notation "c1 ;; c2" := (bind c1 (fun _ => c2))
  (at level 100, right associativity) : js_scope.
Local Open Scope js_scope.

Definition TypeError (msg : string) : Error := mkError "TypeError" msg.

(** [x.prop] where [x] may be [undefined] or [null]. *)
Definition read_of {A} (x : option A) (what prop : string) : M A :=
  match x with
  | Some a => ret a
  | None =>
      throw (TypeError ("Cannot read properties of " +:+ what +:+
                        " (reading '" +:+ prop +:+ "')"))
  end.

Section Gateways.
Context (E : Env).

(** [await mongo.connect()]. *)
Definition connect : M unit :=
  fun st =>
    (match mongo_connect E (now st) with Some e => inl e | None => inr tt end,
     log MongoConnect st).

(** [await mongo.close()]. *)
Definition close (st : state) : state := log MongoClose st.

(** [await posts.findOne({ _id })]: the document, or [null]. *)
Definition findOne (oid : string) : M (option doc) :=
  fun st =>
    (match posts_findOne E (now st) oid with
     | Some e => inl e
     | None => inr (posts st !! oid)
     end, log (FindOne oid) st).

(** [$set]: each listed field is written, first to last. *)
Definition apply_set (set : list (string * bson)) (d : doc) : doc :=
  fold_left (fun d kv => <[kv.1 := kv.2]> d) set d.

(** [await posts.updateOne({ _id }, { $set })]: the matching document, if
    there is one, is updated in place; no document is created. *)
Definition updateOne (oid : string) (set : list (string * bson)) : M unit :=
  fun st =>
    match posts_updateOne E (now st) oid set with
    | Some e => (inl e, log (UpdateOne oid set) st)
    | None =>
        (inr tt,
         log (UpdateOne oid set)
           (mkState (alter (apply_set set) oid (posts st))
                    (index st) (drawn st) (trace st)))
    end.

(** [await qdrant.upsert(collection, { points })]: each point replaces the
    point of the same id, or is added. *)
Definition upsert_points (collection : string) (points : list point)
  (ix : gmap (string * string) point) : gmap (string * string) point :=
  fold_left (fun ix p => <[(collection, point_id p) := p]> ix) points ix.

Definition upsert (collection : string) (points : list point) : M unit :=
  fun st =>
    match qdrant_upsert E (now st) collection points with
    | Some e => (inl e, log (QdrantUpsert collection points) st)
    | None =>
        (inr tt,
         log (QdrantUpsert collection points)
           (mkState (posts st) (upsert_points collection points (index st))
                    (drawn st) (trace st)))
    end.

(** [uuidv4()]. *)
Definition uuid : M string :=
  fun st =>
    (inr (uuidv4 E (drawn st)),
     mkState (posts st) (index st) (S (drawn st)) (trace st)).

(** [new Date()]. *)
Definition new_Date : M Z := fun st => (inr (Date_now E (now st)), st).

(** [streamToBufferPromise(stream)]. *)
Definition streamToBufferPromise (stream : Stream) : M (list byte) :=
  match stream_error stream with
  | Some e => throw e
  | None => ret (concat (chunks stream))
  end.

(** [downloadImage(bucket, key)]. *)
Definition downloadImage (bucket key : string) : M (list byte) :=
  let cmd := mkGetObject bucket key in
  resp <- remote (S3Send cmd) (fun t => s3_send E t cmd) ;;
  streamToBufferPromise resp.

End Gateways.

(** ** The steps both handlers share *)

(** [key.split("/")[2].split(".")[0]]: reading [split] of a missing third
    segment throws. *)
Definition postId_of_key (key : string) : Error + string :=
  match JS.split "/" key !! 2%nat with
  | None =>
      inl (TypeError "Cannot read properties of undefined (reading 'split')")
  | Some segment => inr (hd EmptyString (JS.split "." segment))
  end.

(** [decodeURIComponent(record.s3.object.key.replace(/\+/g, " "))]. *)
Definition key_of (record : S3Record) : Error + string :=
  JS.decodeURIComponent (JS.replace_plus (object_key record)).

(** [const { userId, caption = "" } = post]: the default is taken when the
    field is [undefined], not when it is [null]. *)
Definition userId_of (post : doc) : value :=
  match post !! "userId" with Some b => VBson b | None => VUndefined end.
Definition caption_of (post : doc) : bson :=
  match post !! "caption" with Some b => b | None => BString "" end.

(** Truthiness and string conversion of a field value. *)
Definition truthy (b : bson) : bool :=
  match b with
  | BNull => false
  | BBool b => b
  | BString s => negb (String.eqb s "")
  end.
Definition ToString (b : bson) : string :=
  match b with
  | BNull => "null"
  | BBool true => "true"
  | BBool false => "false"
  | BString s => s
  end.

(** [caption ? `${caption} ${imageDescription}`.trim() : imageDescription]. *)
Definition combinedText (caption : bson) (imageDescription : string) : string :=
  if truthy caption
  then JS.trim (ToString caption +:+ " " +:+ imageDescription)
  else imageDescription.

(** [for (const record of event.Records) { ... }]: the first record whose
    body throws ends the loop. *)
Fixpoint for_of {A} (body : A -> M unit) (l : list A) : M unit :=
  match l with
  | [] => ret tt
  | x :: rest => body x ;; for_of body rest
  end.

(** [try { connect; loop; return 200 } catch (error) { return 500 }
    finally { close }]. *)
Definition run_handler (E : Env) (body : S3Record -> M unit) (event : Event)
  (st : state) : Response * state :=
  match (connect E ;; for_of body (Records event)) st with
  | (inr _, st') =>
      (mkResponse 200 (JS.stringify_object [("success", JS.JBool true)]),
       close st')
  | (inl error, st') =>
      (mkResponse 500
         (JS.stringify_object [("error", JS.JString (message error))]),
       close st')
  end.

(** ** index_with_bedrock.mjs *)

Module IndexWithBedrock.

(** The description built from the labels of Rekognition. *)
Definition describe (Labels : list Label) : string :=
  let labels := JS.join ", " (map Name Labels) in
  "A imagem contém: " +:+ JS.toLowerCase labels +:+ ".".

(** The fields of [$set] and the payload of the point. *)
Definition set_fields (embeddingId : string) : list (string * bson) :=
  [ ("status", BString "processed"); ("embeddingId", BString embeddingId) ].

Definition payload_of (postId : string) (userId : value) (caption : bson)
  (imageDescription : string) : list (string * value) :=
  [ ("postId", VBson (BString postId)); ("userId", userId);
    ("caption", VBson caption);
    ("imageDescription", VBson (BString imageDescription)) ].

(** The body of the loop over [event.Records]. *)
Definition loop_body (E : Env) (record : S3Record) : M unit :=
  let bucket := bucket_name record in
  key <- lift (key_of record) ;;
  postId <- lift (postId_of_key key) ;;
  oid <- lift (ObjectId E postId) ;;
  post <- findOne E oid ;;
  match post with
  | None => ret tt
  | Some post =>
      let userId := userId_of post in
      let caption := caption_of post in
      imageBuffer <- downloadImage E bucket key ;;
      let detect := mkDetectLabels imageBuffer 10 75 in
      rekResp <- remote (RekognitionSend detect)
                   (fun t => rekognition_send E t detect) ;;
      let imageDescription := describe rekResp in
      let text := combinedText caption imageDescription in
      let invoke :=
        mkInvokeModel "amazon.titan-embed-text-v2:0" "application/json"
                      "application/json" text in
      embedding <- remote (BedrockSend invoke)
                     (fun t => bedrock_send E t invoke) ;;
      embeddingId <- uuid E ;;
      oid' <- lift (ObjectId E postId) ;;
      updateOne E oid' (set_fields embeddingId) ;;
      upsert E "posts"
        [ mkPoint embeddingId embedding
            (payload_of postId userId caption imageDescription) ]
  end.

Definition handler (E : Env) : Event -> state -> Response * state :=
  run_handler E (loop_body E).

End IndexWithBedrock.

(** ** index_old.mjs *)

Module IndexOld.

Definition system_prompt : string :=
  "Você é um assistente que descreve imagens de forma objetiva e detalhada.".
Definition user_prompt : string :=
  "Descreva brevemente o conteúdo e o contexto desta imagem:".

Definition set_fields (imageDescription : string) : list (string * bson) :=
  [ ("status", BString "processed");
    ("imageDescription", BString imageDescription) ].

Definition payload_of (postId : string) (userId : value) (caption : bson)
  (imageDescription : string) (createdAt : Z) : list (string * value) :=
  [ ("postId", VBson (BString postId)); ("userId", userId);
    ("caption", VBson caption);
    ("imageDescription", VBson (BString imageDescription));
    ("createdAt", VDate createdAt) ].

(** The body of the loop over [event.Records]. *)
Definition loop_body (E : Env) (record : S3Record) : M unit :=
  let bucket := bucket_name record in
  key <- lift (key_of record) ;;
  postId <- lift (postId_of_key key) ;;
  oid <- lift (ObjectId E postId) ;;
  post <- findOne E oid ;;
  match post with
  | None => ret tt
  | Some post =>
      let userId := userId_of post in
      let caption := caption_of post in
      imageBuffer <- downloadImage E bucket key ;;
      let base64Image := JS.base64 imageBuffer in
      let chat :=
        mkChat "gpt-4o-mini" system_prompt user_prompt
               ("data:image/jpeg;base64," +:+ base64Image) in
      choices <- remote (ChatCompletionsCreate chat)
                   (fun t => chat_create E t chat) ;;
      choice <- read_of (choices !! 0%nat) "undefined" "message" ;;
      content <- read_of choice "null" "trim" ;;
      let imageDescription := JS.trim content in
      let text := combinedText caption imageDescription in
      let req := mkEmbeddings "text-embedding-3-small" text in
      data <- remote (EmbeddingsCreate req)
                (fun t => embeddings_create E t req) ;;
      embedding <- read_of (data !! 0%nat) "undefined" "embedding" ;;
      oid' <- lift (ObjectId E postId) ;;
      updateOne E oid' (set_fields imageDescription) ;;
      id <- uuid E ;;
      createdAt <- new_Date E ;;
      upsert E "posts"
        [ mkPoint id embedding
            (payload_of postId userId caption imageDescription createdAt) ]
  end.

Definition handler (E : Env) : Event -> state -> Response * state :=
  run_handler E (loop_body E).

End IndexOld.

(** ** A concrete environment *)

Module Demo.

(** [new ObjectId(s)] of bson 6: a string must be 24 hexadecimal digits;
    the identifier does not depend on the case of the digits. *)
Definition is_hex (c : ascii) : bool :=
  match JS.hex_val c with Some _ => true | None => false end.

Definition BSONError : Error :=
  mkError "BSONError"
    "input must be a 24 character hex string, 12 byte Uint8Array, or an integer".

Definition bson_ObjectId (s : string) : Error + string :=
  if (String.length s =? 24)%nat && forallb is_hex (JS.chars s)
  then inr (JS.toLowerCase s)
  else inl BSONError.

Definition nth_uuid (n : nat) : string := "uuid-" +:+ pretty n.

Definition sky_cloud : list Label :=
  [ mkLabel "Sky" (99 # 1); mkLabel "Cloud" (90 # 1) ].
Definition embedding : vector := [ 1 # 10; 2 # 10; 3 # 10; 4 # 10 ].
Definition image : list byte := [ Byte.xff; Byte.xd8; Byte.xff ].

(** Every service answers, always the same. *)
Definition env : Env :=
  {| ObjectId := bson_ObjectId;
     uuidv4 := nth_uuid;
     Date_now := fun t => (1700000000000 + Z.of_nat t)%Z;
     mongo_connect := fun _ => None;
     posts_findOne := fun _ _ => None;
     posts_updateOne := fun _ _ _ => None;
     s3_send := fun _ _ => inr (mkStream [image] None);
     rekognition_send := fun _ _ => inr sky_cloud;
     bedrock_send := fun _ _ => inr (Some embedding);
     chat_create := fun _ _ => inr [Some " A sunset over the sea. "];
     embeddings_create := fun _ _ => inr [Some embedding];
     qdrant_upsert := fun _ _ _ => None |}.

(** The same, but the embedding backends reject every request. *)
Definition throttled : Error :=
  mkError "ThrottlingException" "Too many requests".
Definition failing_env : Env :=
  {| ObjectId := bson_ObjectId;
     uuidv4 := nth_uuid;
     Date_now := Date_now env;
     mongo_connect := mongo_connect env;
     posts_findOne := posts_findOne env;
     posts_updateOne := posts_updateOne env;
     s3_send := s3_send env;
     rekognition_send := rekognition_send env;
     bedrock_send := fun _ _ => inl throttled;
     chat_create := chat_create env;
     embeddings_create := fun _ _ => inl throttled;
     qdrant_upsert := qdrant_upsert env |}.

Definition post_id : string := "65a1b2c3d4e5f60718293a4b".
Definition post1 : doc :=
  {[ "userId" := BString "u1"; "caption" := BString "sunset";
     "status" := BString "pending" ]}.
Definition store : gmap string doc := {[ post_id := post1 ]}.
Definition st0 : state := mkState store ∅ 0 [].
Definition record1 : S3Record :=
  mkRecord "spotter-images" "posts/u1/65a1b2c3d4e5f60718293a4b.jpg".
Definition event1 : Event := mkEvent [record1].

End Demo.

(** ** Vocabulary of the properties *)

(** The two handlers of the repository. *)
Inductive variant := Bedrock | Old.

Definition loop_body_of (v : variant) : Env -> S3Record -> M unit :=
  match v with
  | Bedrock => IndexWithBedrock.loop_body
  | Old => IndexOld.loop_body
  end.

Definition handler_of (v : variant) : Env -> Event -> state -> Response * state :=
  match v with
  | Bedrock => IndexWithBedrock.handler
  | Old => IndexOld.handler
  end.

(** [payload[k]]. *)
Fixpoint payload_get (k : string) (payload : list (string * value)) : value :=
  match payload with
  | [] => VUndefined
  | (k', v) :: rest => if String.eqb k k' then v else payload_get k rest
  end.

(** The upserts among some calls. *)
Definition upserts (calls : list call) : list (string * list point) :=
  omap (fun c => match c with
                 | QdrantUpsert collection points => Some (collection, points)
                 | _ => None
                 end) calls.

(** The error with which the service answers the call [c] made at time [t],
    if it answers with one: a rejected request, or the [error] event of the
    object stream. *)
Definition failure (E : Env) (t : nat) (c : call) : option Error :=
  match c with
  | MongoConnect => mongo_connect E t
  | FindOne oid => posts_findOne E t oid
  | S3Send cmd =>
      match s3_send E t cmd with
      | inl e => Some e
      | inr stream => stream_error stream
      end
  | RekognitionSend cmd =>
      match rekognition_send E t cmd with inl e => Some e | inr _ => None end
  | BedrockSend cmd =>
      match bedrock_send E t cmd with inl e => Some e | inr _ => None end
  | ChatCompletionsCreate req =>
      match chat_create E t req with inl e => Some e | inr _ => None end
  | EmbeddingsCreate req =>
      match embeddings_create E t req with inl e => Some e | inr _ => None end
  | UpdateOne oid set => posts_updateOne E t oid set
  | QdrantUpsert collection points => qdrant_upsert E t collection points
  | MongoClose => None
  end.

(** A computation keeps a relation between the state in which it starts
    and the state in which it ends, however it ends. *)
Definition preserves {A} (R : relation state) (m : M A) : Prop :=
  forall st r st', m st = (r, st') -> R st st'.

(** No error of a service is swallowed: a call made by [m] that the service
    answers with an error is the last call [m] makes, and [m] throws that
    error. *)
Definition propagates {A} (E : Env) (m : M A) : Prop :=
  forall st r st' t c e,
    m st = (r, st') ->
    now st <= t ->
    trace st' !! t = Some c ->
    failure E t c = Some e ->
    r = inl e /\ S t = now st'.

(** *** The persist step *)

(** The field, besides [status], that the persist step writes. *)
Definition enrichment_field (v : variant) : string :=
  match v with
  | Bedrock => "embeddingId"
  | Old => "imageDescription"
  end.

(** An [updateOne] sets [status] to ["processed"] and the enrichment field
    to a string, and nothing else. *)
Definition update_ok (v : variant) (c : call) : Prop :=
  match c with
  | UpdateOne _ set =>
      exists x,
        set = [ ("status", BString "processed");
                (enrichment_field v, BString x) ]
  | _ => True
  end.

(** From [st] to [st'] no post appears or disappears, a post differs at most
    in [status] and in the enrichment field, and every [updateOne] sent is a
    [$set] of these two fields. *)
Definition partial_update (v : variant) (st st' : state) : Prop :=
  (forall oid, posts st !! oid = None -> posts st' !! oid = None) /\
  (forall oid (d : doc), posts st !! oid = Some d ->
     exists d' : doc, posts st' !! oid = Some d' /\
       forall f, f <> "status" -> f <> enrichment_field v -> d' !! f = d !! f) /\
  exists calls, trace st' = trace st ++ calls /\ Forall (update_ok v) calls.

(** *** The index step *)

(** The names of the payload fields, in the order of the object literal. *)
Definition payload_fields (v : variant) : list string :=
  match v with
  | Bedrock => [ "postId"; "userId"; "caption"; "imageDescription" ]
  | Old => [ "postId"; "userId"; "caption"; "imageDescription"; "createdAt" ]
  end.

(** The embedding backend of the handler has answered the request for
    [text] with [vec]. *)
Definition embedded (v : variant) (E : Env) (text : string)
  (vec : option vector) : Prop :=
  match v with
  | Bedrock =>
      exists t,
        bedrock_send E t
          (mkInvokeModel "amazon.titan-embed-text-v2:0" "application/json"
                         "application/json" text) = inr vec
  | Old =>
      exists t data,
        embeddings_create E t (mkEmbeddings "text-embedding-3-small" text)
        = inr data /\ data !! 0%nat = Some vec
  end.

(** An upsert writes to ["posts"] one point: its id is the [n]-th identifier
    drawn, its payload has the fields of the handler, and its vector is the
    embedding of the text combined from the caption and the description of
    the payload. *)
Definition upsert_ok (v : variant) (E : Env) (n : nat)
  (u : string * list point) : Prop :=
  u.1 = "posts" /\
  exists p, u.2 = [p] /\
    point_id p = uuidv4 E n /\
    map fst (point_payload p) = payload_fields v /\
    exists caption imageDescription,
      payload_get "caption" (point_payload p) = VBson caption /\
      payload_get "imageDescription" (point_payload p)
      = VBson (BString imageDescription) /\
      embedded v E (combinedText caption imageDescription) (point_vector p).

(** From [st] to [st'] the upserts sent are well formed, each on a draw of
    its own made in between. *)
Definition upserts_ok (v : variant) (E : Env) (st st' : state) : Prop :=
  drawn st <= drawn st' /\
  exists calls ns,
    trace st' = trace st ++ calls /\
    StronglySorted lt ns /\
    Forall (fun n => drawn st <= n < drawn st') ns /\
    Forall2 (upsert_ok v E) ns (upserts calls).

(** From [st] to [st'] a point of the index is kept, unless it is stored
    under an identifier drawn in between. *)
Definition index_kept (E : Env) (st st' : state) : Prop :=
  drawn st <= drawn st' /\
  forall key p,
    index st !! key = Some p ->
    index st' !! key = Some p \/
    exists n, drawn st <= n < drawn st' /\ key = ("posts", uuidv4 E n).

(** ** Vocabulary of the further properties *)

(** The step of the pipeline a call belongs to: lookup, fetch, describe,
    embed, persist, index.  Opening and closing the connection belong to no
    record. *)
Definition stage (c : call) : option nat :=
  match c with
  | FindOne _ => Some 0
  | S3Send _ => Some 1
  | RekognitionSend _ | ChatCompletionsCreate _ => Some 2
  | BedrockSend _ | EmbeddingsCreate _ => Some 3
  | UpdateOne _ _ => Some 4
  | QdrantUpsert _ _ => Some 5
  | MongoConnect | MongoClose => None
  end%nat.

(** From [st] to [st'] calls were only added, each of them with [P]. *)
Definition calls_satisfy (P : call -> Prop) (st st' : state) : Prop :=
  exists calls, trace st' = trace st ++ calls /\ Forall P calls.

(** Environments in which one service is down. *)
Module Faults.

Definition refused : Error :=
  mkError "MongoNetworkError" "connect ECONNREFUSED".

(** MongoDB cannot be reached. *)
Definition no_store_env : Env :=
  {| ObjectId := ObjectId Demo.env;
     uuidv4 := uuidv4 Demo.env;
     Date_now := Date_now Demo.env;
     mongo_connect := fun _ => Some refused;
     posts_findOne := posts_findOne Demo.env;
     posts_updateOne := posts_updateOne Demo.env;
     s3_send := s3_send Demo.env;
     rekognition_send := rekognition_send Demo.env;
     bedrock_send := bedrock_send Demo.env;
     chat_create := chat_create Demo.env;
     embeddings_create := embeddings_create Demo.env;
     qdrant_upsert := qdrant_upsert Demo.env |}.

Definition unavailable : Error :=
  mkError "ApiError" "Service Unavailable".

(** Qdrant rejects every upsert. *)
Definition no_index_env : Env :=
  {| ObjectId := ObjectId Demo.env;
     uuidv4 := uuidv4 Demo.env;
     Date_now := Date_now Demo.env;
     mongo_connect := mongo_connect Demo.env;
     posts_findOne := posts_findOne Demo.env;
     posts_updateOne := posts_updateOne Demo.env;
     s3_send := s3_send Demo.env;
     rekognition_send := rekognition_send Demo.env;
     bedrock_send := bedrock_send Demo.env;
     chat_create := chat_create Demo.env;
     embeddings_create := embeddings_create Demo.env;
     qdrant_upsert := fun _ _ _ => Some unavailable |}.

End Faults.

(** Two hexadecimal digits come first in [s]: what must follow a [%]. *)
Definition hex_pair (s : string) : bool :=
  match s with
  | String h (String l _) =>
      match JS.hex_val h, JS.hex_val l with
      | Some _, Some _ => true
      | _, _ => false
      end
  | _ => false
  end.


(** The key of [record] resolves to the key [oid] of the store. *)
Definition resolves_to (E : Env) (record : S3Record) (oid : string) : Prop :=
  exists key postId,
    key_of record = inr key /\
    postId_of_key key = inr postId /\
    ObjectId E postId = inr oid.

(** From [st] to [st'] a post that has [status] ["processed"] keeps it. *)
Definition processed_kept (st st' : state) : Prop :=
  forall oid (d : doc),
    posts st !! oid = Some d ->
    d !! "status" = Some (BString "processed") ->
    exists d' : doc,
      posts st' !! oid = Some d' /\
      d' !! "status" = Some (BString "processed").

(** * Properties *)

(** ** Strings *)

Lemma split_nonempty sep s : JS.split sep s <> [].
Proof.
  destruct s as [|c s]; simpl; [done|].
  destruct (Ascii.eqb c sep); [done|].
  by destruct (JS.split sep s).
Qed.



(** *** [trim] has enough fuel: its result starts and ends with no white space *)

Lemma strip_prefix_app_eq p l l' :
  JS.strip_prefix p l = Some l' -> l = p ++ l'.
Proof.
  revert l. induction p as [|a p IH]; intros [|b l] H; simpl in H;
    try by simplify_eq.
  destruct (Ascii.eqb a b) eqn:Hab; [|done].
  apply Ascii.eqb_eq in Hab as ->. simpl. f_equal. by apply IH.
Qed.

Lemma strip_prefix_more p l l' suffix :
  JS.strip_prefix p l = Some l' ->
  JS.strip_prefix p (l ++ suffix) = Some (l' ++ suffix).
Proof.
  revert l. induction p as [|a p IH]; intros [|b l] H; simpl in *;
    try by simplify_eq.
  destruct (Ascii.eqb a b); [by apply IH|done].
Qed.

Lemma strip_first_app_eq ps l l' :
  JS.strip_first ps l = Some l' -> exists p, p ∈ ps /\ l = p ++ l'.
Proof.
  induction ps as [|p ps IH]; simpl; [done|].
  destruct (JS.strip_prefix p l) as [l0|] eqn:Hp.
  - intros [= <-]. exists p. split; [left|by apply strip_prefix_app_eq].
  - intros H. destruct (IH H) as (q & Hq & ->). exists q. split; [by right|done].
Qed.

Lemma strip_first_more ps l l' suffix :
  JS.strip_first ps l = Some l' -> is_Some (JS.strip_first ps (l ++ suffix)).
Proof.
  induction ps as [|p ps IH]; simpl; [done|].
  destruct (JS.strip_prefix p l) as [l0|] eqn:Hp.
  - intros _. by rewrite (strip_prefix_more _ _ _ _ Hp).
  - intros H. destruct (JS.strip_prefix p (l ++ suffix)); eauto.
Qed.

Lemma strip_all_suffix fuel ps l :
  exists removed, l = removed ++ JS.strip_all fuel ps l.
Proof.
  revert l. induction fuel as [|fuel IH]; intros l; simpl; [by exists []|].
  destruct (JS.strip_first ps l) as [l'|] eqn:Hl; [|by exists []].
  destruct (strip_first_app_eq _ _ _ Hl) as (p & _ & ->).
  destruct (IH l') as [removed Hr]. exists (p ++ removed).
  by rewrite <- app_assoc, <- Hr.
Qed.

Lemma strip_all_done fuel ps l :
  Forall (fun p => p <> []) ps ->
  length l <= fuel ->
  JS.strip_first ps (JS.strip_all fuel ps l) = None.
Proof.
  intros Hps. revert l. induction fuel as [|fuel IH]; intros l Hlen; simpl.
  - destruct l; [|simpl in Hlen; lia].
    destruct (JS.strip_first ps []) as [l'|] eqn:Hl; [|done].
    destruct (strip_first_app_eq _ _ _ Hl) as (p & Hp & Heq).
    rewrite Forall_forall in Hps. specialize (Hps _ Hp).
    by destruct p.
  - destruct (JS.strip_first ps l) as [l'|] eqn:Hl; [|done].
    apply IH. destruct (strip_first_app_eq _ _ _ Hl) as (p & Hp & ->).
    rewrite Forall_forall in Hps. specialize (Hps _ Hp).
    rewrite length_app in Hlen. destruct p; [done|simpl in Hlen; lia].
Qed.

Lemma ws_fwd_nonempty : Forall (fun p => p <> []) JS.ws_fwd.
Proof. vm_compute. repeat constructor; discriminate. Qed.

Lemma ws_bwd_nonempty : Forall (fun p => p <> []) JS.ws_bwd.
Proof. vm_compute. repeat constructor; discriminate. Qed.

Lemma trim_is_trimmed s :
  JS.strip_first JS.ws_fwd (JS.chars (JS.trim s)) = None /\
  JS.strip_first JS.ws_bwd (rev (JS.chars (JS.trim s))) = None.
Proof.
  unfold JS.trim, JS.chars, JS.str.
  rewrite list_ascii_of_string_of_list_ascii.
  set (l := JS.trimStart_chars (list_ascii_of_string s)).
  assert (JS.strip_first JS.ws_fwd l = None) as Hstart.
  { apply strip_all_done; [apply ws_fwd_nonempty|done]. }
  split.
  - unfold JS.trimEnd_chars.
    destruct (strip_all_suffix (length l) JS.ws_bwd (rev l)) as [removed Hr].
    set (kept := JS.strip_all (length l) JS.ws_bwd (rev l)) in *.
    assert (l = rev kept ++ rev removed) as Hl.
    { by rewrite <- rev_app_distr, <- Hr, rev_involutive. }
    destruct (JS.strip_first JS.ws_fwd (rev kept)) as [l'|] eqn:Hk; [|done].
    apply (strip_first_more _ _ _ (rev removed)) in Hk as [x Hx].
    rewrite <- Hl in Hx. congruence.
  - unfold JS.trimEnd_chars. rewrite rev_involutive.
    apply strip_all_done; [apply ws_bwd_nonempty|].
    by rewrite length_rev.
Qed.

(** C4. The combined text is a function of the caption and the description
    alone: an empty caption and an absent caption give the description
    itself; a non-empty caption gives the caption, one space and the
    description, trimmed, a text that neither starts nor ends with white
    space; ["cap"] and ["d"] give ["cap d"]. *)
Theorem combinedText_spec :
  (forall d, combinedText (BString "") d = d) /\
  (forall post d, combinedText (caption_of (delete "caption" post)) d = d) /\
  (forall a c d,
      let text := combinedText (BString (String a c)) d in
      text = JS.trim (String a c +:+ " " +:+ d) /\
      JS.strip_first JS.ws_fwd (JS.chars text) = None /\
      JS.strip_first JS.ws_bwd (rev (JS.chars text)) = None) /\
  combinedText (BString "cap") "d" = "cap d".
Proof.
  split; [done|]. split; [|split; [|done]].
  - intros post d. unfold caption_of. by rewrite lookup_delete_eq.
  - intros a c d. simpl. split; [done|]. apply trim_is_trimmed.
Qed.



(** ** The monad and the loop *)

Lemma handler_of_run v E :
  handler_of v E = run_handler E (loop_body_of v E).
Proof. by destruct v. Qed.

(** Unfolds the monadic steps of a loop body. *)
Ltac unfold_body :=
  unfold IndexWithBedrock.loop_body, IndexOld.loop_body, downloadImage,
    streamToBufferPromise, read_of, findOne, updateOne, upsert, uuid,
    new_Date, remote, bind, lift, ret, throw in *.

(** A record whose body throws in every state makes the loop throw. *)
Lemma for_of_throws {A} (body : A -> M unit) (x : A) (l : list A) :
  (forall st, exists e, body x st = (inl e, st)) ->
  x ∈ l ->
  forall st, exists e st', for_of body l st = (inl e, st').
Proof.
  intros Hx Hin. induction Hin as [x l|x y l Hin IH]; intros st; simpl; unfold bind.
  - destruct (Hx st) as [e ->]. eauto.
  - destruct (body y st) as [[e|[]] st']; eauto.
Qed.

Lemma run_handler_throws E body event st e st' :
  (connect E ;; for_of body (Records event)) st = (inl e, st') ->
  run_handler E body event st
  = (mkResponse 500 (JS.stringify_object [("error", JS.JString (message e))]),
     close st').
Proof. intros H. unfold run_handler. by rewrite H. Qed.

Lemma run_handler_returns E body event st st' :
  (connect E ;; for_of body (Records event)) st = (inr tt, st') ->
  run_handler E body event st
  = (mkResponse 200 (JS.stringify_object [("success", JS.JBool true)]),
     close st').
Proof. intros H. unfold run_handler. by rewrite H. Qed.

(** ** The path convention *)

(** C9. A record whose decoded key has fewer than three segments makes the
    loop body throw, on reading [split] of the missing third segment (the
    decode error of the path convention), in the state in which the body
    started: no remote call has been made for the record. *)
Theorem short_key_throws_before_any_call v E record key st :
  key_of record = inr key ->
  length (JS.split "/" key) < 3 ->
  loop_body_of v E record st
  = (inl (TypeError "Cannot read properties of undefined (reading 'split')"),
     st).
Proof.
  intros Hkey Hlen.
  assert (postId_of_key key
          = inl (TypeError "Cannot read properties of undefined (reading 'split')"))
    as Hid.
  { unfold postId_of_key. rewrite lookup_ge_None_2; [done|lia]. }
  destruct v; simpl; unfold_body; by rewrite Hkey, Hid.
Qed.

Lemma short_key_throws_before_any_call_witness :
  loop_body_of Bedrock Demo.env (mkRecord "spotter-images" "posts/u1") Demo.st0
  = (inl (TypeError "Cannot read properties of undefined (reading 'split')"),
     Demo.st0).
Proof.
  apply (short_key_throws_before_any_call Bedrock Demo.env
           (mkRecord "spotter-images" "posts/u1") "posts/u1" Demo.st0).
  - reflexivity.
  - vm_compute. lia.
Defined.

(** ** The lookup of the post *)

(** C10. A record whose third segment gives an id that [new ObjectId]
    rejects makes the loop body throw the constructor's error before the
    lookup is sent, and the handler of a batch that holds such a record
    answers with status 500. *)
Theorem invalid_object_id_fails_the_batch v E event record key postId e st :
  record ∈ Records event ->
  key_of record = inr key ->
  postId_of_key key = inr postId ->
  ObjectId E postId = inl e ->
  (forall st', loop_body_of v E record st' = (inl e, st')) /\
  statusCode (handler_of v E event st).1 = 500%Z.
Proof.
  intros Hin Hkey Hid Hoid.
  assert (forall st', loop_body_of v E record st' = (inl e, st')) as Hbody.
  { intros st'. destruct v; simpl; unfold_body; by rewrite Hkey, Hid, Hoid. }
  split; [done|].
  rewrite handler_of_run. unfold run_handler, bind.
  destruct (connect E st) as [[e0|[]] st0]; [done|].
  destruct (for_of_throws (loop_body_of v E) record (Records event)
              (fun s => ex_intro _ e (Hbody s)) Hin st0) as (e1 & st1 & ->).
  done.
Qed.

Lemma invalid_object_id_fails_the_batch_witness :
  statusCode
    (handler_of Old Demo.env
       (mkEvent [Demo.record1; mkRecord "spotter-images" "posts/u1/p1.jpg"])
       Demo.st0).1 = 500%Z.
Proof.
  apply (invalid_object_id_fails_the_batch Old Demo.env
           (mkEvent [Demo.record1; mkRecord "spotter-images" "posts/u1/p1.jpg"])
           (mkRecord "spotter-images" "posts/u1/p1.jpg")
           "posts/u1/p1.jpg" "p1" Demo.BSONError Demo.st0).
  - repeat constructor.
  - reflexivity.
  - reflexivity.
  - reflexivity.
Defined.

(** C3, as stated, fails: the id [p1] is the id of no post of the store,
    yet the record makes the batch fail, and the record after it, whose post
    exists, is not processed. *)
Lemma missing_post_counterexample :
  let record := mkRecord "spotter-images" "posts/u1/p1.jpg" in
  let event := mkEvent [record; Demo.record1] in
  key_of record = inr "posts/u1/p1.jpg" /\
  postId_of_key "posts/u1/p1.jpg" = inr "p1" /\
  posts Demo.st0 !! "p1" = None /\
  ObjectId Demo.env "p1" = inl Demo.BSONError /\
  forall v,
    statusCode (handler_of v Demo.env event Demo.st0).1 = 500%Z /\
    trace (handler_of v Demo.env event Demo.st0).2 = [MongoConnect; MongoClose].
Proof.
  repeat split; try reflexivity; destruct v; vm_compute; reflexivity.
Qed.

(** C3 (as amended). When the id of the record is one [new ObjectId]
    accepts, the lookup is answered and the store holds no post of that id,
    the loop body makes the lookup and no other call, changes nothing else,
    and does not throw: the loop goes on with the records that follow. *)
Theorem missing_post_is_skipped v E record rest key postId oid st :
  key_of record = inr key ->
  postId_of_key key = inr postId ->
  ObjectId E postId = inr oid ->
  posts_findOne E (now st) oid = None ->
  posts st !! oid = None ->
  loop_body_of v E record st = (inr tt, log (FindOne oid) st) /\
  for_of (loop_body_of v E) (record :: rest) st
  = for_of (loop_body_of v E) rest (log (FindOne oid) st).
Proof.
  intros Hkey Hid Hoid Hfind Hnone.
  assert (loop_body_of v E record st = (inr tt, log (FindOne oid) st)) as Hbody.
  { destruct v; simpl; unfold_body; by rewrite Hkey, Hid, Hoid, Hfind, Hnone. }
  split; [done|]. simpl. unfold bind. by rewrite Hbody.
Qed.

Lemma missing_post_is_skipped_witness :
  for_of (loop_body_of Bedrock Demo.env)
    [mkRecord "spotter-images" "posts/u1/0123456789abcdef01234567.jpg";
     Demo.record1] Demo.st0
  = for_of (loop_body_of Bedrock Demo.env) [Demo.record1]
      (log (FindOne "0123456789abcdef01234567") Demo.st0).
Proof.
  apply (missing_post_is_skipped Bedrock Demo.env
           (mkRecord "spotter-images" "posts/u1/0123456789abcdef01234567.jpg")
           [Demo.record1] "posts/u1/0123456789abcdef01234567.jpg"
           "0123456789abcdef01234567" "0123456789abcdef01234567" Demo.st0);
    reflexivity.
Defined.
(** Runs a loop body symbolically: one case for each way it can end. *)
Ltac exec H :=
  unfold_body; simpl in H;
  repeat (case_match; simplify_eq/=);
  unfold log, upsert_points in *; simpl in *;
  rewrite <- ?app_assoc in *; simpl in *.

Lemma preserves_for_of {A} (R : relation state) `{!PreOrder R}
  (body : A -> M unit) (l : list A) :
  (forall x, preserves R (body x)) -> preserves R (for_of body l).
Proof.
  intros Hbody. induction l as [|x l IH]; intros st r st' Hrun; simpl in Hrun.
  - unfold ret in Hrun. by simplify_eq.
  - unfold bind in Hrun. destruct (body x st) as [[e|[]] st1] eqn:Hx.
    + simplify_eq. by eapply Hbody.
    + etrans; [by eapply Hbody|by eapply IH].
Qed.

Lemma preserves_run_handler (R : relation state) `{!PreOrder R} E body event st :
  (forall s, R s (log MongoConnect s)) ->
  (forall s, R s (log MongoClose s)) ->
  (forall x, preserves R (body x)) ->
  R st (run_handler E body event st).2.
Proof.
  intros Hconnect Hclose Hbody. unfold run_handler, bind, connect.
  destruct (mongo_connect E (now st)) as [e|]; simpl.
  - etrans; [apply Hconnect|apply Hclose].
  - destruct (for_of body (Records event) (log MongoConnect st))
      as [[e|u] st'] eqn:Hloop; simpl;
      (etrans; [apply Hconnect|]);
      (etrans; [by eapply (preserves_for_of R)|apply Hclose]).
Qed.

Lemma for_of_app {A} (body : A -> M unit) (l1 l2 : list A) st :
  for_of body (l1 ++ l2) st
  = match for_of body l1 st with
    | (inr _, st') => for_of body l2 st'
    | (inl e, st') => (inl e, st')
    end.
Proof.
  revert st. induction l1 as [|x l1 IH]; intros st; simpl; [done|].
  unfold bind. destruct (body x st) as [[e|[]] st1]; [done|]. apply IH.
Qed.
(** ** The persist step *)

Lemma apply_set_other (set : list (string * bson)) (d : doc) f :
  f ∉ set.*1 -> apply_set set d !! f = d !! f.
Proof.
  unfold apply_set. revert d.
  induction set as [|[k x] set IH]; intros d Hf; simpl; [done|].
  rewrite IH by set_solver. apply lookup_insert_ne. set_solver.
Qed.

Lemma partial_update_refl v st : partial_update v st st.
Proof.
  repeat split; [eauto..|]. exists []. by rewrite app_nil_r.
Qed.

Lemma partial_update_trans v st1 st2 st3 :
  partial_update v st1 st2 -> partial_update v st2 st3 ->
  partial_update v st1 st3.
Proof.
  intros (Hn1 & Hs1 & calls1 & Ht1 & Hc1) (Hn2 & Hs2 & calls2 & Ht2 & Hc2).
  repeat split.
  - eauto.
  - intros oid d Hd. destruct (Hs1 _ _ Hd) as (d1 & Hd1 & Hf1).
    destruct (Hs2 _ _ Hd1) as (d2 & Hd2 & Hf2).
    exists d2. split; [done|]. intros f ? ?. by rewrite Hf2, Hf1.
  - exists (calls1 ++ calls2). rewrite Ht2, Ht1, app_assoc.
    split; [done|]. by apply Forall_app.
Qed.

#[local] Instance partial_update_preorder v : PreOrder (partial_update v).
Proof.
  split; [intros ?; apply partial_update_refl|intros ???; apply partial_update_trans].
Qed.

(** A successful [updateOne] with the fields of the handler. *)
Lemma partial_update_set v oid x st ix n calls :
  Forall (update_ok v) calls ->
  partial_update v st
    (mkState
       (alter (apply_set [ ("status", BString "processed");
                           (enrichment_field v, BString x) ]) oid (posts st))
       ix n (trace st ++ calls)).
Proof.
  intros Hcalls. repeat split; simpl.
  - intros o Ho. rewrite lookup_alter. case_decide; [|done].
    subst. by rewrite Ho.
  - intros o d Hd. rewrite lookup_alter. case_decide.
    + subst. rewrite Hd. eexists. split; [reflexivity|].
      intros f ? ?. apply apply_set_other. set_solver.
    + eauto.
  - eauto.
Qed.

(** Only the trace, the index or the number of draws changed. *)
Lemma partial_update_same_posts v st ix n calls :
  Forall (update_ok v) calls ->
  partial_update v st (mkState (posts st) ix n (trace st ++ calls)).
Proof. intros Hcalls. repeat split; simpl; eauto. Qed.

Lemma loop_body_partial_update v E record :
  preserves (partial_update v) (loop_body_of v E record).
Proof.
  intros st r st' Hrun.
  destruct v; simpl in Hrun; exec Hrun.
  all: try apply partial_update_refl.
  all: try (apply partial_update_same_posts; repeat constructor; simpl; eauto).
  all: try (eapply (partial_update_set Bedrock); repeat constructor; simpl; eauto).
  all: eapply (partial_update_set Old); repeat constructor; simpl; eauto.
Qed.

(** C7. Over a run of a handler no post appears or disappears, a post keeps
    every field other than [status] and the enrichment field of the handler
    ([embeddingId], or [imageDescription]), and every [updateOne] the handler
    sends is a [$set] of [status] to ["processed"] and of the enrichment
    field: no document is replaced. *)
Theorem persist_is_a_partial_update v E event st :
  let st' := (handler_of v E event st).2 in
  (forall oid, posts st !! oid = None -> posts st' !! oid = None) /\
  (forall oid (d : doc), posts st !! oid = Some d ->
     exists d' : doc, posts st' !! oid = Some d' /\
       forall f, f <> "status" -> f <> enrichment_field v -> d' !! f = d !! f) /\
  Forall (update_ok v) (drop (now st) (trace st')).
Proof.
  assert (partial_update v st (handler_of v E event st).2)
    as (Hnone & Hsome & calls & Htrace & Hcalls).
  { rewrite handler_of_run.
    apply (preserves_run_handler (partial_update v)).
    - intros s. apply partial_update_same_posts. by repeat constructor.
    - intros s. apply partial_update_same_posts. by repeat constructor.
    - apply loop_body_partial_update. }
  simpl. repeat split; [done..|].
  rewrite Htrace. unfold now. by rewrite drop_app_length.
Qed.


(** ** A processed record *)

(** What a loop body that returns has done for a record whose post exists. *)
Lemma processed_shape v E record key postId oid (post : doc) st st' :
  key_of record = inr key ->
  postId_of_key key = inr postId ->
  ObjectId E postId = inr oid ->
  posts st !! oid = Some post ->
  loop_body_of v E record st = (inr tt, st') ->
  exists p set calls,
    st' = mkState (alter (apply_set set) oid (posts st))
                  (<[("posts", point_id p) := p]> (index st))
                  (S (drawn st)) (trace st ++ calls) /\
    point_id p = uuidv4 E (drawn st) /\
    upserts calls = [("posts", [p])] /\
    payload_get "postId" (point_payload p) = VBson (BString postId) /\
    apply_set set post !! "status" = Some (BString "processed").
Proof.
  intros Hkey Hid Hoid Hpost Hrun.
  destruct v; simpl in Hrun; unfold_body;
    rewrite Hkey, Hid, Hoid in Hrun; exec Hrun.
  all: eexists (mkPoint _ _ _), _, _; split; [reflexivity|]; repeat split.
  all: unfold apply_set; simpl; by simplify_map_eq.
Qed.

(** C1. When the key of a record resolves to the id of a post of the store
    and the loop body returns, the post has [status] ["processed"], and the
    body has sent one upsert, of one point, to ["posts"]: the payload of the
    point has the resolved id as [postId], the point is stored in the index
    under the identifier just drawn and nothing else of the index changed,
    so that the index has one point more when the identifier was not in
    use. *)
Theorem processed_post_is_marked_and_indexed
  v E record key postId oid (post : doc) st st' :
  key_of record = inr key ->
  postId_of_key key = inr postId ->
  ObjectId E postId = inr oid ->
  posts st !! oid = Some post ->
  loop_body_of v E record st = (inr tt, st') ->
  (exists post' : doc,
      posts st' !! oid = Some post' /\
      post' !! "status" = Some (BString "processed")) /\
  exists p,
    upserts (drop (now st) (trace st')) = [("posts", [p])] /\
    payload_get "postId" (point_payload p) = VBson (BString postId) /\
    point_id p = uuidv4 E (drawn st) /\
    index st' = <[("posts", point_id p) := p]> (index st) /\
    (index st !! ("posts", point_id p) = None ->
     size (index st') = S (size (index st))).
Proof.
  intros Hkey Hid Hoid Hpost Hrun.
  destruct (processed_shape v E record key postId oid post st st'
              Hkey Hid Hoid Hpost Hrun)
    as (p & set & calls & -> & Hp & Hups & Hpayload & Hstatus).
  simpl. split.
  - exists (apply_set set post). split; [|done].
    by rewrite lookup_alter_eq, Hpost.
  - exists p. unfold now. rewrite drop_app_length.
    repeat split; try done. apply map_size_insert_None.
Qed.

Lemma processed_post_is_marked_and_indexed_witness :
  let st' := (loop_body_of Bedrock Demo.env Demo.record1 Demo.st0).2 in
  (exists post' : doc,
      posts st' !! Demo.post_id = Some post' /\
      post' !! "status" = Some (BString "processed")) /\
  exists p,
    upserts (drop (now Demo.st0) (trace st')) = [("posts", [p])] /\
    payload_get "postId" (point_payload p) = VBson (BString Demo.post_id) /\
    point_id p = uuidv4 Demo.env (drawn Demo.st0) /\
    index st' = <[("posts", point_id p) := p]> (index Demo.st0) /\
    (index Demo.st0 !! ("posts", point_id p) = None ->
     size (index st') = S (size (index Demo.st0))).
Proof.
  apply (processed_post_is_marked_and_indexed Bedrock Demo.env Demo.record1
           "posts/u1/65a1b2c3d4e5f60718293a4b.jpg" Demo.post_id Demo.post_id Demo.post1
           Demo.st0).
  - reflexivity.
  - reflexivity.
  - reflexivity.
  - reflexivity.
  - vm_compute. reflexivity.
Defined.

(** ** The index step *)

Lemma upserts_app calls1 calls2 :
  upserts (calls1 ++ calls2) = upserts calls1 ++ upserts calls2.
Proof. apply omap_app. Qed.

Lemma upserts_ok_refl v E st : upserts_ok v E st st.
Proof.
  split; [done|]. exists [], []. rewrite app_nil_r.
  repeat split; constructor.
Qed.

Lemma upserts_ok_trans v E st1 st2 st3 :
  upserts_ok v E st1 st2 -> upserts_ok v E st2 st3 -> upserts_ok v E st1 st3.
Proof.
  intros (Hd1 & calls1 & ns1 & Ht1 & Hs1 & Hb1 & Hu1)
         (Hd2 & calls2 & ns2 & Ht2 & Hs2 & Hb2 & Hu2).
  split; [lia|]. exists (calls1 ++ calls2), (ns1 ++ ns2).
  rewrite Ht2, Ht1, app_assoc. repeat split.
  - apply StronglySorted_app_2; [|done..].
    intros n1 n2 Hn1 Hn2.
    rewrite Forall_forall in Hb1, Hb2.
    specialize (Hb1 _ Hn1). specialize (Hb2 _ Hn2). lia.
  - apply Forall_app. split.
    + eapply Forall_impl; [exact Hb1|]. simpl. lia.
    + eapply Forall_impl; [exact Hb2|]. simpl. lia.
  - rewrite upserts_app. by apply Forall2_app.
Qed.

#[local] Instance upserts_ok_preorder v E : PreOrder (upserts_ok v E).
Proof.
  split; [intros ?; apply upserts_ok_refl|intros ???; apply upserts_ok_trans].
Qed.

(** Calls among which there is no upsert. *)
Lemma upserts_ok_quiet v E st ps ix n calls :
  drawn st <= n ->
  upserts calls = [] ->
  upserts_ok v E st (mkState ps ix n (trace st ++ calls)).
Proof.
  intros Hn Hups. split; [done|]. exists calls, [].
  rewrite Hups. repeat split; constructor.
Qed.

(** Calls among which there is one upsert, on the one draw made. *)
Lemma upserts_ok_one v E st ps ix calls u :
  upserts calls = [u] ->
  upsert_ok v E (drawn st) u ->
  upserts_ok v E st (mkState ps ix (S (drawn st)) (trace st ++ calls)).
Proof.
  intros Hups Hu. split; [simpl; lia|]. exists calls, [drawn st].
  rewrite Hups. repeat split.
  - repeat constructor.
  - repeat constructor; simpl; lia.
  - constructor; [exact Hu|constructor].
Qed.

Lemma loop_body_upserts_ok v E record :
  preserves (upserts_ok v E) (loop_body_of v E record).
Proof.
  intros st r st' Hrun.
  destruct v; simpl in Hrun; exec Hrun.
  all: try apply upserts_ok_refl.
  all: try (apply upserts_ok_quiet; [simpl; lia|reflexivity]).
  all: eapply upserts_ok_one; [reflexivity|].
  all: split; [reflexivity|]; eexists; split; [reflexivity|].
  all: repeat split; simpl; eauto 10.
Qed.

(** C6 (as amended). The upserts a run of a handler sends are, in order,
    on draws [ns] of identifiers made during the run, no two on the same
    draw; each writes to ["posts"] one point whose id is the identifier of
    its draw, whose vector is the answer of the embedding backend for the
    text combined from the caption and the description of the payload, and
    whose payload has the fields [postId], [userId], [caption] and
    [imageDescription], and also [createdAt] in [index_old.mjs]. *)
Theorem every_upsert_is_one_fresh_point v E event st :
  let st' := (handler_of v E event st).2 in
  exists ns,
    StronglySorted lt ns /\
    Forall (fun n => drawn st <= n < drawn st') ns /\
    Forall2 (upsert_ok v E) ns (upserts (drop (now st) (trace st'))).
Proof.
  assert (upserts_ok v E st (handler_of v E event st).2)
    as (_ & calls & ns & Htrace & Hsorted & Hbounds & Hups).
  { rewrite handler_of_run.
    apply (preserves_run_handler (upserts_ok v E)).
    - intros s. by apply upserts_ok_quiet.
    - intros s. by apply upserts_ok_quiet.
    - apply loop_body_upserts_ok. }
  simpl. exists ns. rewrite Htrace. unfold now. by rewrite drop_app_length.
Qed.

(** C6, as stated, fails: the payload that [index_old.mjs] upserts has a
    fifth field, [createdAt], and no field [description]. *)
Lemma payload_fields_counterexample :
  exists p,
    upserts (trace (handler_of Old Demo.env Demo.event1 Demo.st0).2)
    = [("posts", [p])] /\
    map fst (point_payload p)
    = [ "postId"; "userId"; "caption"; "imageDescription"; "createdAt" ] /\
    payload_get "createdAt" (point_payload p) = VDate 1700000000006 /\
    payload_get "description" (point_payload p) = VUndefined.
Proof.
  exists (mkPoint "uuid-0" (Some Demo.embedding)
            (IndexOld.payload_of Demo.post_id (VBson (BString "u1"))
               (BString "sunset") "A sunset over the sea." 1700000000006)).
  vm_compute. repeat split.
Qed.

(** ** Two runs on the same event *)

Lemma index_kept_refl E st : index_kept E st st.
Proof. split; eauto. Qed.

Lemma index_kept_trans E st1 st2 st3 :
  index_kept E st1 st2 -> index_kept E st2 st3 -> index_kept E st1 st3.
Proof.
  intros [Hd1 Hk1] [Hd2 Hk2]. split; [lia|].
  intros key p Hp. destruct (Hk1 _ _ Hp) as [Hp2|(n & Hn & ->)].
  - destruct (Hk2 _ _ Hp2) as [Hp3|(n & Hn & ->)]; [by left|].
    right. exists n. split; [lia|done].
  - right. exists n. split; [lia|done].
Qed.

#[local] Instance index_kept_preorder E : PreOrder (index_kept E).
Proof.
  split; [intros ?; apply index_kept_refl|intros ???; apply index_kept_trans].
Qed.

Lemma index_kept_same E st ps n tr :
  drawn st <= n -> index_kept E st (mkState ps (index st) n tr).
Proof. intros Hn. split; eauto. Qed.

Lemma index_kept_insert E st ps p tr :
  index_kept E st
    (mkState ps (<[("posts", uuidv4 E (drawn st)) := p]> (index st))
       (S (drawn st)) tr).
Proof.
  split; [simpl; lia|]. simpl. intros key q Hq.
  destruct (decide (key = ("posts", uuidv4 E (drawn st)))) as [->|Hne].
  - right. exists (drawn st). split; [lia|done].
  - left. by rewrite lookup_insert_ne.
Qed.

Lemma loop_body_index_kept v E record :
  preserves (index_kept E) (loop_body_of v E record).
Proof.
  intros st r st' Hrun.
  destruct v; simpl in Hrun; exec Hrun.
  all: try apply index_kept_refl.
  all: try (apply index_kept_same; simpl; lia).
  all: apply index_kept_insert.
Qed.

(** A loop that returns has indexed every record whose post exists. *)
Lemma for_of_processes v E record key postId oid :
  Inj (=) (=) (uuidv4 E) ->
  key_of record = inr key ->
  postId_of_key key = inr postId ->
  ObjectId E postId = inr oid ->
  forall l st st' (post : doc),
    record ∈ l ->
    posts st !! oid = Some post ->
    for_of (loop_body_of v E) l st = (inr tt, st') ->
    exists p n,
      ("posts", [p]) ∈ upserts (drop (now st) (trace st')) /\
      payload_get "postId" (point_payload p) = VBson (BString postId) /\
      point_id p = uuidv4 E n /\
      drawn st <= n < drawn st' /\
      index st' !! ("posts", point_id p) = Some p.
Proof.
  intros Hinj Hkey Hid Hoid.
  induction l as [|x rest IH]; intros st st' post Hin Hpost Hrun.
  { by apply elem_of_nil in Hin. }
  simpl in Hrun. unfold bind in Hrun.
  destruct (loop_body_of v E x st) as [[e|[]] s1] eqn:Hx; [done|].
  pose proof (preserves_for_of (upserts_ok v E) _ rest
                (loop_body_upserts_ok v E) _ _ _ Hrun)
    as (Hd2 & calls2 & _ & Ht2 & _).
  pose proof (preserves_for_of (index_kept E) _ rest
                (loop_body_index_kept v E) _ _ _ Hrun) as [_ Hkept].
  apply elem_of_cons in Hin as [<-|Hin].
  - destruct (processed_shape v E record key postId oid post st s1
                Hkey Hid Hoid Hpost Hx)
      as (p & set & calls & -> & Hp & Hups & Hpayload & _).
    simpl in *. exists p, (drawn st). repeat split; try done; try lia.
    + rewrite Ht2, <- app_assoc. unfold now. rewrite drop_app_length.
      rewrite upserts_app, Hups. set_solver.
    + destruct (Hkept ("posts", point_id p) p) as [Hp'|(n & Hn & Heq)];
        [apply lookup_insert_eq|done|].
      rewrite Hp in Heq. injection Heq as Heq. apply Hinj in Heq. lia.
  - destruct (loop_body_upserts_ok v E x _ _ _ Hx)
      as (Hd1 & calls1 & _ & Ht1 & _).
    destruct (loop_body_partial_update v E x _ _ _ Hx) as (_ & Hsome & _).
    destruct (Hsome _ _ Hpost) as (post1 & Hpost1 & _).
    destruct (IH s1 st' post1 Hin Hpost1 Hrun)
      as (p & n & Hup & Hpayload & Hp & Hn & Hix).
    exists p, n. repeat split; try done; try lia.
    revert Hup. unfold now. rewrite Ht2, drop_app_length.
    rewrite Ht1, <- app_assoc, drop_app_length, upserts_app. set_solver.
Qed.

Lemma run_handler_ok E body event st :
  statusCode (run_handler E body event st).1 = 200%Z ->
  exists st',
    for_of body (Records event) (log MongoConnect st) = (inr tt, st') /\
    (run_handler E body event st).2 = close st'.
Proof.
  unfold run_handler, connect. simpl. unfold bind.
  destruct (mongo_connect E (now st)); simpl; [intros [=]|].
  destruct (for_of body (Records event) (log MongoConnect st))
    as [[e|[]] st']; simpl; [intros [=]|].
  eauto.
Qed.

Lemma drop_now_run st s calls :
  trace s = trace (log MongoConnect st) ++ calls ->
  drop (now st) (trace (close s)) = [MongoConnect] ++ calls ++ [MongoClose].
Proof.
  intros Ht. unfold close, log, now in *. simpl in *.
  rewrite Ht, <- !app_assoc. apply drop_app_length.
Qed.

(** C8. When the identifiers drawn are pairwise distinct, two runs of a
    handler, one after the other, on the same event, both answered with
    status 200, send for a record of the event whose post exists one upsert
    each, of two points with the same [postId] and with different ids: the
    id is the identifier drawn in the run, not the id of the post.  After
    the second run the index holds both points. *)
Theorem two_runs_index_two_points v E event record key postId oid (post : doc) st :
  Inj (=) (=) (uuidv4 E) ->
  record ∈ Records event ->
  key_of record = inr key ->
  postId_of_key key = inr postId ->
  ObjectId E postId = inr oid ->
  posts st !! oid = Some post ->
  let run1 := handler_of v E event st in
  let run2 := handler_of v E event run1.2 in
  statusCode run1.1 = 200%Z ->
  statusCode run2.1 = 200%Z ->
  exists p1 p2,
    ("posts", [p1]) ∈ upserts (drop (now st) (trace run1.2)) /\
    ("posts", [p2]) ∈ upserts (drop (now run1.2) (trace run2.2)) /\
    payload_get "postId" (point_payload p1) = VBson (BString postId) /\
    payload_get "postId" (point_payload p2) = VBson (BString postId) /\
    point_id p1 <> point_id p2 /\
    index run2.2 !! ("posts", point_id p1) = Some p1 /\
    index run2.2 !! ("posts", point_id p2) = Some p2.
Proof.
  intros Hinj Hin Hkey Hid Hoid Hpost run1 run2 H1 H2. subst run1 run2.
  rewrite handler_of_run in *.
  destruct (run_handler_ok _ _ _ _ H1) as (s1 & Hloop1 & Hs1).
  rewrite Hs1 in *.
  destruct (run_handler_ok _ _ _ _ H2) as (s2 & Hloop2 & Hs2).
  rewrite Hs2. clear H1 H2 Hs1 Hs2.
  destruct (for_of_processes v E record key postId oid Hinj Hkey Hid Hoid
              _ (log MongoConnect st) _ post Hin Hpost Hloop1)
    as (p1 & n1 & Hup1 & Hpay1 & Hp1 & Hn1 & Hix1).
  pose proof (preserves_for_of (partial_update v) _ _
                (loop_body_partial_update v E) _ _ _ Hloop1)
    as (_ & Hsome & calls1 & Ht1 & _).
  destruct (Hsome _ _ Hpost) as (post1 & Hpost1 & _).
  destruct (for_of_processes v E record key postId oid Hinj Hkey Hid Hoid
              _ (log MongoConnect (close s1)) _ post1 Hin Hpost1 Hloop2)
    as (p2 & n2 & Hup2 & Hpay2 & Hp2 & Hn2 & Hix2).
  pose proof (preserves_for_of (index_kept E) _ _
                (loop_body_index_kept v E) _ _ _ Hloop2) as [_ Hkept].
  pose proof (preserves_for_of (partial_update v) _ _
                (loop_body_partial_update v E) _ _ _ Hloop2)
    as (_ & _ & calls2 & Ht2 & _).
  assert (drop (now (log MongoConnect st)) (trace s1) = calls1) as Hdrop1.
  { rewrite Ht1. apply drop_app_length. }
  assert (drop (now (log MongoConnect (close s1))) (trace s2) = calls2)
    as Hdrop2.
  { rewrite Ht2. apply drop_app_length. }
  rewrite Hdrop1 in Hup1. rewrite Hdrop2 in Hup2.
  simpl in Hn1, Hn2.
  assert (n1 <> n2) as Hne by lia.
  exists p1, p2.
  rewrite (drop_now_run _ _ _ Ht1), (drop_now_run _ _ _ Ht2), !upserts_app.
  repeat split; try done.
  - set_solver.
  - set_solver.
  - rewrite Hp1, Hp2. intros Heq. by apply Hinj in Heq.
  - destruct (Hkept ("posts", point_id p1) p1 Hix1) as [Hp'|(n & Hn & Heq)];
      [done|].
    rewrite Hp1 in Heq. injection Heq as Heq. apply Hinj in Heq.
    simpl in Hn. lia.
Qed.

Lemma nth_uuid_inj : Inj (=) (=) Demo.nth_uuid.
Proof.
  intros m n H. unfold Demo.nth_uuid in H.
  injection H as H. change (pretty m = pretty n) in H.
  by apply (inj pretty).
Qed.

Lemma two_runs_index_two_points_witness :
  let run1 := handler_of Old Demo.env Demo.event1 Demo.st0 in
  let run2 := handler_of Old Demo.env Demo.event1 run1.2 in
  exists p1 p2,
    ("posts", [p1]) ∈ upserts (drop (now Demo.st0) (trace run1.2)) /\
    ("posts", [p2]) ∈ upserts (drop (now run1.2) (trace run2.2)) /\
    payload_get "postId" (point_payload p1) = VBson (BString Demo.post_id) /\
    payload_get "postId" (point_payload p2) = VBson (BString Demo.post_id) /\
    point_id p1 <> point_id p2 /\
    index run2.2 !! ("posts", point_id p1) = Some p1 /\
    index run2.2 !! ("posts", point_id p2) = Some p2.
Proof.
  apply (two_runs_index_two_points Old Demo.env Demo.event1 Demo.record1
           "posts/u1/65a1b2c3d4e5f60718293a4b.jpg" Demo.post_id Demo.post_id Demo.post1
           Demo.st0).
  - exact nth_uuid_inj.
  - repeat constructor.
  - reflexivity.
  - reflexivity.
  - reflexivity.
  - reflexivity.
  - vm_compute. reflexivity.
  - vm_compute. reflexivity.
Defined.

(** ** Errors *)

Lemma lookup_after (l k : list call) t c :
  length l <= t ->
  (l ++ k) !! t = Some c ->
  exists i, t = length l + i /\ k !! i = Some c.
Proof.
  intros Hle Hc. rewrite lookup_app_r in Hc by done.
  exists (t - length l). split; [lia|done].
Qed.

Lemma loop_body_propagates v E record : propagates E (loop_body_of v E record).
Proof.
  intros st r st' t c e Hrun Ht Hc Hf. unfold now in Ht.
  destruct v; simpl in Hrun; exec Hrun.
  all: try (apply lookup_lt_Some in Hc; lia).
  all: destruct (lookup_after _ _ _ _ Ht Hc) as (i & -> & Hi); clear Hc Ht.
  all: unfold now in *; simpl in *; rewrite ?length_app in *; simpl in *.
  all: do 7 (try destruct i as [|i]); simplify_eq/=.
  all: rewrite ?Nat.add_0_r in *.
  all: repeat case_match; simplify_eq; try congruence.
  all: split; [done|lia].
Qed.

(** C2. A handler whose loop returns answers with status 200 and the body
    [{success: true}].  When the records before [record] are processed
    without an error and a call made for [record] is answered by its service
    with the error [e], then that call is the last call made before the
    connection is closed, so that nothing is done for the records after
    [record], and the handler answers with status 500 and a body that holds
    the message of [e]. *)
Theorem batch_stops_at_first_failure v E event st :
  (forall st',
      (connect E ;; for_of (loop_body_of v E) (Records event)) st
      = (inr tt, st') ->
      handler_of v E event st
      = (mkResponse 200 (JS.stringify_object [("success", JS.JBool true)]),
         close st')) /\
  (forall before record after st1 r st2 t c e,
      Records event = before ++ record :: after ->
      (connect E ;; for_of (loop_body_of v E) before) st = (inr tt, st1) ->
      loop_body_of v E record st1 = (r, st2) ->
      now st1 <= t ->
      trace st2 !! t = Some c ->
      failure E t c = Some e ->
      S t = now st2 /\
      handler_of v E event st
      = (mkResponse 500
           (JS.stringify_object [("error", JS.JString (message e))]),
         close st2)).
Proof.
  rewrite handler_of_run. split.
  - apply run_handler_returns.
  - intros before record after st1 r st2 t c e Hrecords Hbefore Hrun Ht Hc Hf.
    destruct (loop_body_propagates v E record st1 r st2 t c e Hrun Ht Hc Hf)
      as [-> Hlast].
    split; [done|]. apply run_handler_throws.
    rewrite Hrecords. unfold bind in *.
    destruct (connect E st) as [[e0|[]] st0]; [done|].
    rewrite for_of_app.
    destruct (for_of (loop_body_of v E) before st0) as [[e1|[]] st1'];
      [done|].
    simplify_eq. simpl. unfold bind. by rewrite Hrun.
Qed.

Lemma batch_stops_at_first_failure_witness :
  let event := mkEvent [Demo.record1; Demo.record1] in
  let st1 := log MongoConnect Demo.st0 in
  let st2 := (loop_body_of Bedrock Demo.failing_env Demo.record1 st1).2 in
  S 4 = now st2 /\
  handler_of Bedrock Demo.failing_env event Demo.st0
  = (mkResponse 500
       (JS.stringify_object
          [("error", JS.JString (message Demo.throttled))]),
     close st2).
Proof.
  apply (proj2 (batch_stops_at_first_failure Bedrock Demo.failing_env
                  (mkEvent [Demo.record1; Demo.record1]) Demo.st0)
           [] Demo.record1 [Demo.record1] (log MongoConnect Demo.st0)
           (inl Demo.throttled)
           (loop_body_of Bedrock Demo.failing_env Demo.record1
              (log MongoConnect Demo.st0)).2
           4
           (BedrockSend
              (mkInvokeModel "amazon.titan-embed-text-v2:0" "application/json"
                 "application/json" "sunset A imagem contém: sky, cloud."))
           Demo.throttled).
  - reflexivity.
  - reflexivity.
  - vm_compute. reflexivity.
  - vm_compute. lia.
  - vm_compute. reflexivity.
  - reflexivity.
Defined.

(** ** The example of an event for [posts/u1/<postId>.jpg] *)

Example end_to_end_bedrock :
  trace (IndexWithBedrock.handler Demo.env Demo.event1 Demo.st0).2
  = [ MongoConnect;
      FindOne Demo.post_id;
      S3Send (mkGetObject "spotter-images"
                "posts/u1/65a1b2c3d4e5f60718293a4b.jpg");
      RekognitionSend (mkDetectLabels Demo.image 10 75);
      BedrockSend
        (mkInvokeModel "amazon.titan-embed-text-v2:0" "application/json"
           "application/json" "sunset A imagem contém: sky, cloud.");
      UpdateOne Demo.post_id
        [ ("status", BString "processed"); ("embeddingId", BString "uuid-0") ];
      QdrantUpsert "posts"
        [ mkPoint "uuid-0" (Some Demo.embedding)
            [ ("postId", VBson (BString Demo.post_id));
              ("userId", VBson (BString "u1"));
              ("caption", VBson (BString "sunset"));
              ("imageDescription",
               VBson (BString "A imagem contém: sky, cloud.")) ] ];
      MongoClose ].
Proof. vm_compute. reflexivity. Qed.

Example end_to_end_old :
  upserts (trace (IndexOld.handler Demo.env Demo.event1 Demo.st0).2)
  = [ ("posts",
       [ mkPoint "uuid-0" (Some Demo.embedding)
           [ ("postId", VBson (BString Demo.post_id));
             ("userId", VBson (BString "u1"));
             ("caption", VBson (BString "sunset"));
             ("imageDescription", VBson (BString "A sunset over the sea."));
             ("createdAt", VDate 1700000000006) ] ]) ]
  /\ posts (IndexOld.handler Demo.env Demo.event1 Demo.st0).2 !! Demo.post_id
     = Some (<["imageDescription" := BString "A sunset over the sea."]>
               (<["status" := BString "processed"]> Demo.post1)).
Proof. split; [vm_compute; reflexivity|]. reflexivity. Qed.

(** * Further properties of the handlers *)

(** ** The calls of a run *)

Lemma calls_satisfy_refl P st : calls_satisfy P st st.
Proof. exists []. by rewrite app_nil_r. Qed.

Lemma calls_satisfy_trans P st1 st2 st3 :
  calls_satisfy P st1 st2 -> calls_satisfy P st2 st3 -> calls_satisfy P st1 st3.
Proof.
  intros (calls1 & Ht1 & Hc1) (calls2 & Ht2 & Hc2).
  exists (calls1 ++ calls2). rewrite Ht2, Ht1, app_assoc.
  split; [done|]. by apply Forall_app.
Qed.

#[local] Instance calls_satisfy_preorder P : PreOrder (calls_satisfy P).
Proof.
  split; [intros ?; apply calls_satisfy_refl|intros ???; apply calls_satisfy_trans].
Qed.

(** The state differs from [st] by the calls added to its trace. *)
Lemma calls_satisfy_added P st ps ix n calls :
  Forall P calls ->
  calls_satisfy P st (mkState ps ix n (trace st ++ calls)).
Proof. intros Hcalls. by exists calls. Qed.

(** X1. The calls a loop body makes for a record are made in the order of
    the pipeline (lookup, fetch, describe, embed, persist, index), none left
    out and none made twice; a body that returns has made the lookup alone
    (the post is missing) or all six calls. *)
Theorem record_calls_follow_the_pipeline v E record st r st' :
  loop_body_of v E record st = (r, st') ->
  exists calls,
    trace st' = trace st ++ calls /\
    stage <$> calls = Some <$> seq 0 (length calls) /\
    length calls <= 6 /\
    (r = inr tt -> length calls = 1 \/ length calls = 6).
Proof.
  intros Hrun. destruct v; simpl in Hrun; exec Hrun.
  all: try (exists []; rewrite app_nil_r; repeat split; simpl; try lia;
            intros [=]).
  all: eexists; split; [reflexivity|]; simpl; repeat split; try lia;
    try (intros [=]); auto.
Qed.

Lemma record_calls_follow_the_pipeline_witness :
  exists calls,
    trace (loop_body_of Old Demo.env Demo.record1 Demo.st0).2
    = trace Demo.st0 ++ calls /\
    stage <$> calls = Some <$> seq 0 (length calls) /\
    length calls <= 6 /\
    ((inr tt : Error + unit) = inr tt ->
     length calls = 1 \/ length calls = 6).
Proof.
  apply (record_calls_follow_the_pipeline Old Demo.env Demo.record1 Demo.st0
           (inr tt) (loop_body_of Old Demo.env Demo.record1 Demo.st0).2).
  vm_compute. reflexivity.
Defined.

(** What a loop body adds to the trace: at most six calls, none of them
    opening or closing the connection. *)
Lemma loop_body_calls v E record st r st' :
  loop_body_of v E record st = (r, st') ->
  exists calls,
    trace st' = trace st ++ calls /\
    Forall (fun c => c <> MongoConnect /\ c <> MongoClose) calls /\
    length calls <= 6.
Proof.
  intros Hrun. destruct v; simpl in Hrun; exec Hrun.
  all: try (exists []; rewrite app_nil_r; split; [done|];
            split; [constructor|simpl; lia]).
  all: eexists; split; [reflexivity|]; split; [|simpl; lia].
  all: repeat constructor; discriminate.
Qed.

Lemma for_of_calls v E l st r st' :
  for_of (loop_body_of v E) l st = (r, st') ->
  exists calls,
    trace st' = trace st ++ calls /\
    Forall (fun c => c <> MongoConnect /\ c <> MongoClose) calls /\
    length calls <= 6 * length l.
Proof.
  revert st. induction l as [|x l IH]; intros st Hrun; simpl in Hrun.
  - unfold ret in Hrun. simplify_eq. exists []. rewrite app_nil_r.
    split; [done|]. split; [constructor|simpl; lia].
  - unfold bind in Hrun.
    destruct (loop_body_of v E x st) as [[e|[]] s1] eqn:Hx.
    + simplify_eq.
      destruct (loop_body_calls _ _ _ _ _ _ Hx) as (calls & Ht & Hc & Hlen).
      exists calls. split; [done|]. split; [done|]. simpl. lia.
    + destruct (loop_body_calls _ _ _ _ _ _ Hx) as (calls1 & Ht1 & Hc1 & Hlen1).
      destruct (IH _ Hrun) as (calls2 & Ht2 & Hc2 & Hlen2).
      exists (calls1 ++ calls2). rewrite Ht2, Ht1, app_assoc.
      split; [done|]. split; [by apply Forall_app|].
      rewrite length_app. simpl. lia.
Qed.

(** X2. A run of a handler opens the connection first and closes it last,
    however the run ends; in between it neither opens nor closes it, and it
    makes at most six calls for each record of the event. *)
Theorem handler_brackets_the_connection v E event st :
  exists calls,
    trace (handler_of v E event st).2
    = trace st ++ [MongoConnect] ++ calls ++ [MongoClose] /\
    Forall (fun c => c <> MongoConnect /\ c <> MongoClose) calls /\
    length calls <= 6 * length (Records event).
Proof.
  rewrite handler_of_run. unfold run_handler, bind, connect.
  destruct (mongo_connect E (now st)) as [e|]; simpl.
  - exists []. split; [by rewrite <- app_assoc|].
    split; [constructor|simpl; lia].
  - destruct (for_of (loop_body_of v E) (Records event) (log MongoConnect st))
      as [r st'] eqn:Hloop.
    destruct (for_of_calls _ _ _ _ _ _ Hloop) as (calls & Ht & Hc & Hlen).
    exists calls. split; [|done].
    destruct r as [e|u]; simpl; rewrite Ht; simpl; by rewrite <- !app_assoc.
Qed.

(** X3. When the connection cannot be opened the handler looks at no
    record: it closes the connection and answers with status 500 and the
    message of the error, and the posts and the index are as they were. *)
Theorem failed_connect_answers_500 v E event st e :
  mongo_connect E (now st) = Some e ->
  handler_of v E event st
  = (mkResponse 500
       (JS.stringify_object [("error", JS.JString (message e))]),
     mkState (posts st) (index st) (drawn st)
       (trace st ++ [MongoConnect; MongoClose])).
Proof.
  intros He. rewrite handler_of_run.
  unfold run_handler, bind, connect. rewrite He.
  unfold close, log. simpl. by rewrite <- app_assoc.
Qed.

Lemma failed_connect_answers_500_witness :
  handler_of Bedrock Faults.no_store_env Demo.event1 Demo.st0
  = (mkResponse 500
       (JS.stringify_object
          [("error", JS.JString (message Faults.refused))]),
     mkState (posts Demo.st0) (index Demo.st0) (drawn Demo.st0)
       (trace Demo.st0 ++ [MongoConnect; MongoClose])).
Proof.
  apply (failed_connect_answers_500 Bedrock Faults.no_store_env Demo.event1
           Demo.st0 Faults.refused).
  reflexivity.
Defined.

(** ** Records that fail *)

(** X4. A record whose loop body throws leaves the index as it was; it
    leaves the posts as they were too, unless the call it failed on is the
    upsert. *)
Theorem failed_record_leaves_the_index v E record st e st' :
  loop_body_of v E record st = (inl e, st') ->
  index st' = index st /\
  (posts st' = posts st \/
   exists collection points,
     last (trace st') = Some (QdrantUpsert collection points)).
Proof.
  intros Hrun. destruct v; simpl in Hrun; exec Hrun.
  all: split; [reflexivity|].
  all: try (left; reflexivity).
  all: right; eexists _, _; rewrite last_app; reflexivity.
Qed.

Lemma failed_record_leaves_the_index_witness :
  let st' := (loop_body_of Bedrock Demo.failing_env Demo.record1 Demo.st0).2 in
  index st' = index Demo.st0 /\
  (posts st' = posts Demo.st0 \/
   exists collection points,
     last (trace st') = Some (QdrantUpsert collection points)).
Proof.
  apply (failed_record_leaves_the_index Bedrock Demo.failing_env Demo.record1
           Demo.st0 Demo.throttled).
  vm_compute. reflexivity.
Defined.

(** X5. Persist and index are not one step: when an upsert was sent for a
    record whose post exists and the loop body throws, the post is already
    stored with [status] ["processed"] while the index is as it was, and in
    [index_with_bedrock.mjs] the post already holds, as [embeddingId], the
    id of the point that was not stored. *)
Theorem failed_upsert_leaves_the_post_processed
  v E record key postId oid (post : doc) st e st' t collection points :
  key_of record = inr key ->
  postId_of_key key = inr postId ->
  ObjectId E postId = inr oid ->
  posts st !! oid = Some post ->
  loop_body_of v E record st = (inl e, st') ->
  now st <= t ->
  trace st' !! t = Some (QdrantUpsert collection points) ->
  index st' = index st /\
  exists (post' : doc) p,
    points = [p] /\
    posts st' !! oid = Some post' /\
    post' !! "status" = Some (BString "processed") /\
    (v = Bedrock -> post' !! "embeddingId" = Some (BString (point_id p))).
Proof.
  intros Hkey Hid Hoid Hpost Hrun Ht Hc. unfold now in Ht.
  destruct v; simpl in Hrun; unfold_body;
    rewrite Hkey, Hid, Hoid in Hrun; exec Hrun.
  all: try (apply lookup_lt_Some in Hc; lia).
  all: destruct (lookup_after _ _ _ _ Ht Hc) as (i & -> & Hi); clear Hc Ht.
  all: do 7 (try destruct i as [|i]); simplify_eq/=.
  all: split; [reflexivity|].
  all: eexists _, _; split; [reflexivity|].
  all: rewrite lookup_alter_eq, Hpost; simpl.
  all: split; [reflexivity|].
  all: unfold apply_set; simpl; split; [by simplify_map_eq|].
  all: try (intros _; by simplify_map_eq).
  all: intros [=].
Qed.

Lemma failed_upsert_leaves_the_post_processed_witness :
  let st' := (loop_body_of Bedrock Faults.no_index_env Demo.record1 Demo.st0).2 in
  let p := mkPoint "uuid-0" (Some Demo.embedding)
             (IndexWithBedrock.payload_of Demo.post_id (VBson (BString "u1"))
                (BString "sunset") "A imagem contém: sky, cloud.") in
  index st' = index Demo.st0 /\
  exists (post' : doc) p',
    [p] = [p'] /\
    posts st' !! Demo.post_id = Some post' /\
    post' !! "status" = Some (BString "processed") /\
    (Bedrock = Bedrock ->
     post' !! "embeddingId" = Some (BString (point_id p'))).
Proof.
  apply (failed_upsert_leaves_the_post_processed Bedrock Faults.no_index_env
           Demo.record1 "posts/u1/65a1b2c3d4e5f60718293a4b.jpg"
           Demo.post_id Demo.post_id Demo.post1 Demo.st0 Faults.unavailable
           (loop_body_of Bedrock Faults.no_index_env Demo.record1 Demo.st0).2
           5 "posts").
  - reflexivity.
  - reflexivity.
  - reflexivity.
  - reflexivity.
  - vm_compute. reflexivity.
  - vm_compute. lia.
  - vm_compute. reflexivity.
Defined.

(** ** What a processed record leaves in the two stores *)

(** X6. In [index_with_bedrock.mjs] a processed post names its point: when
    the loop body returns for a record whose post exists, the [embeddingId]
    stored in the post is the id of a point of the index, and the payload of
    that point has the id of the post as [postId]. *)
Theorem bedrock_post_names_its_point
  E record key postId oid (post : doc) st st' :
  key_of record = inr key ->
  postId_of_key key = inr postId ->
  ObjectId E postId = inr oid ->
  posts st !! oid = Some post ->
  IndexWithBedrock.loop_body E record st = (inr tt, st') ->
  exists (post' : doc) p,
    posts st' !! oid = Some post' /\
    post' !! "embeddingId" = Some (BString (point_id p)) /\
    index st' !! ("posts", point_id p) = Some p /\
    payload_get "postId" (point_payload p) = VBson (BString postId).
Proof.
  intros Hkey Hid Hoid Hpost Hrun.
  unfold_body; rewrite Hkey, Hid, Hoid in Hrun; exec Hrun.
  eexists _, (mkPoint _ _ _). rewrite lookup_alter_eq, Hpost. simpl.
  split; [reflexivity|]. unfold apply_set. simpl.
  split; [by simplify_map_eq|]. split; [apply lookup_insert_eq|done].
Qed.

Lemma bedrock_post_names_its_point_witness :
  let st' := (IndexWithBedrock.loop_body Demo.env Demo.record1 Demo.st0).2 in
  exists (post' : doc) p,
    posts st' !! Demo.post_id = Some post' /\
    post' !! "embeddingId" = Some (BString (point_id p)) /\
    index st' !! ("posts", point_id p) = Some p /\
    payload_get "postId" (point_payload p) = VBson (BString Demo.post_id).
Proof.
  apply (bedrock_post_names_its_point Demo.env Demo.record1
           "posts/u1/65a1b2c3d4e5f60718293a4b.jpg" Demo.post_id Demo.post_id
           Demo.post1 Demo.st0).
  - reflexivity.
  - reflexivity.
  - reflexivity.
  - reflexivity.
  - vm_compute. reflexivity.
Defined.

(** X7. In [index_old.mjs] a processed post and its point hold the same
    description, which neither starts nor ends with white space; the post
    does not record the id of the point: its [embeddingId] is as it was. *)
Theorem old_post_and_point_share_the_description
  E record key postId oid (post : doc) st st' :
  key_of record = inr key ->
  postId_of_key key = inr postId ->
  ObjectId E postId = inr oid ->
  posts st !! oid = Some post ->
  IndexOld.loop_body E record st = (inr tt, st') ->
  exists (post' : doc) p description,
    posts st' !! oid = Some post' /\
    index st' !! ("posts", point_id p) = Some p /\
    post' !! "imageDescription" = Some (BString description) /\
    payload_get "imageDescription" (point_payload p)
    = VBson (BString description) /\
    JS.strip_first JS.ws_fwd (JS.chars description) = None /\
    JS.strip_first JS.ws_bwd (rev (JS.chars description)) = None /\
    post' !! "embeddingId" = post !! "embeddingId".
Proof.
  intros Hkey Hid Hoid Hpost Hrun.
  unfold_body; rewrite Hkey, Hid, Hoid in Hrun; exec Hrun.
  eexists _, (mkPoint _ _ _), _. rewrite lookup_alter_eq, Hpost. simpl.
  split; [reflexivity|]. split; [apply lookup_insert_eq|].
  unfold apply_set. simpl.
  split; [by simplify_map_eq|]. split; [reflexivity|].
  split; [apply trim_is_trimmed|]. split; [apply trim_is_trimmed|].
  by simplify_map_eq.
Qed.

Lemma old_post_and_point_share_the_description_witness :
  let st' := (IndexOld.loop_body Demo.env Demo.record1 Demo.st0).2 in
  exists (post' : doc) p description,
    posts st' !! Demo.post_id = Some post' /\
    index st' !! ("posts", point_id p) = Some p /\
    post' !! "imageDescription" = Some (BString description) /\
    payload_get "imageDescription" (point_payload p)
    = VBson (BString description) /\
    JS.strip_first JS.ws_fwd (JS.chars description) = None /\
    JS.strip_first JS.ws_bwd (rev (JS.chars description)) = None /\
    post' !! "embeddingId" = Demo.post1 !! "embeddingId".
Proof.
  apply (old_post_and_point_share_the_description Demo.env Demo.record1
           "posts/u1/65a1b2c3d4e5f60718293a4b.jpg" Demo.post_id Demo.post_id
           Demo.post1 Demo.st0).
  - reflexivity.
  - reflexivity.
  - reflexivity.
  - reflexivity.
  - vm_compute. reflexivity.
Defined.

(** ** The text that is embedded *)

Lemma chars_app a b : JS.chars (a +:+ b) = JS.chars a ++ JS.chars b.
Proof.
  unfold JS.chars. induction a as [|c a IH]; simpl; [done|]. by rewrite IH.
Qed.

(** A character that is part of no pattern is not stripped. *)
Lemma strip_all_keeps (x : ascii) ps fuel l :
  Forall (fun p => x ∉ p) ps -> x ∈ l -> x ∈ JS.strip_all fuel ps l.
Proof.
  intros Hps. revert l. induction fuel as [|fuel IH]; intros l Hx; simpl;
    [done|].
  destruct (JS.strip_first ps l) as [l'|] eqn:Hl; [|done].
  apply IH. destruct (strip_first_app_eq _ _ _ Hl) as (p & Hp & ->).
  rewrite Forall_forall in Hps. specialize (Hps _ Hp).
  apply elem_of_app in Hx as [Hx|Hx]; [done|done].
Qed.

Lemma full_stop_not_white_fwd : Forall (fun p => "."%char ∉ p) JS.ws_fwd.
Proof. apply (bool_decide_unpack _). vm_compute. exact I. Qed.

Lemma full_stop_not_white_bwd : Forall (fun p => "."%char ∉ p) JS.ws_bwd.
Proof. apply (bool_decide_unpack _). vm_compute. exact I. Qed.

Lemma trim_keeps_full_stop s :
  "."%char ∈ JS.chars s -> "."%char ∈ JS.chars (JS.trim s).
Proof.
  intros Hs. unfold JS.trim, JS.str. unfold JS.chars at 1.
  rewrite list_ascii_of_string_of_list_ascii.
  unfold JS.trimEnd_chars, JS.trimStart_chars.
  apply list_elem_of_In, in_rev, list_elem_of_In.
  rewrite rev_involutive.
  apply strip_all_keeps; [apply full_stop_not_white_bwd|].
  apply list_elem_of_In, in_rev, list_elem_of_In. rewrite rev_involutive.
  apply strip_all_keeps; [apply full_stop_not_white_fwd|done].
Qed.

Lemma describe_has_full_stop Labels :
  "."%char ∈ JS.chars (IndexWithBedrock.describe Labels).
Proof.
  unfold IndexWithBedrock.describe. rewrite !chars_app.
  rewrite !elem_of_app. right. right. by left.
Qed.

Lemma bedrock_text_has_full_stop caption Labels :
  "."%char
  ∈ JS.chars (combinedText caption (IndexWithBedrock.describe Labels)).
Proof.
  unfold combinedText. destruct (truthy caption).
  - apply trim_keeps_full_stop. rewrite !chars_app, !elem_of_app.
    right. right. apply describe_has_full_stop.
  - apply describe_has_full_stop.
Qed.

Lemma bedrock_loop_body_text E record :
  preserves
    (calls_satisfy
       (fun c => match c with
                 | BedrockSend cmd => "."%char ∈ JS.chars (inputText cmd)
                 | _ => True
                 end))
    (IndexWithBedrock.loop_body E record).
Proof.
  intros st r st' Hrun. exec Hrun.
  all: try apply calls_satisfy_refl.
  all: apply calls_satisfy_added; repeat constructor.
  all: apply bedrock_text_has_full_stop.
Qed.

(** X8. In a run of [index_with_bedrock.mjs] the text of every embedding
    request holds the full stop that ends the description: whatever the
    caption and the labels, even without any label, the text sent to the
    embedding model is not empty. *)
Theorem bedrock_text_is_never_empty E event st :
  Forall
    (fun c => match c with
              | BedrockSend cmd =>
                  "."%char ∈ JS.chars (inputText cmd) /\ inputText cmd <> ""
              | _ => True
              end)
    (drop (now st) (trace (IndexWithBedrock.handler E event st).2)).
Proof.
  destruct (preserves_run_handler
              (calls_satisfy
                 (fun c => match c with
                           | BedrockSend cmd =>
                               "."%char ∈ JS.chars (inputText cmd)
                           | _ => True
                           end))
              E (IndexWithBedrock.loop_body E) event st)
    as (calls & Ht & Hcalls).
  - intros s. unfold log. apply calls_satisfy_added. by repeat constructor.
  - intros s. unfold log. apply calls_satisfy_added. by repeat constructor.
  - apply bedrock_loop_body_text.
  - unfold IndexWithBedrock.handler. rewrite Ht. unfold now.
    rewrite drop_app_length.
    eapply Forall_impl; [exact Hcalls|].
    intros [] H; try done. split; [done|].
    intros Heq. rewrite Heq in H. by apply elem_of_nil in H.
Qed.

(** ** Keys *)

Lemma append_empty_r s : s +:+ "" = s.
Proof.
  induction s as [|c s IH]; [done|].
  change (String c (s +:+ "") = String c s). by f_equal.
Qed.

(** The first segment of [a +:+ b], when [a] holds no separator, is [a]
    followed by the first segment of [b]. *)
Lemma split_head sep a b :
  sep ∉ JS.chars a ->
  exists seg segs,
    JS.split sep b = seg :: segs /\
    JS.split sep (a +:+ b) = (a +:+ seg) :: segs.
Proof.
  induction a as [|c a IH]; simpl; intros Ha.
  - destruct (JS.split sep b) as [|seg segs] eqn:Hb.
    + by apply split_nonempty in Hb.
    + eauto.
  - apply not_elem_of_cons in Ha as [Hc Ha].
    destruct (IH Ha) as (seg & segs & Hb & Hab).
    exists seg, segs. split; [done|].
    destruct (Ascii.eqb c sep) eqn:Heq.
    + apply Ascii.eqb_eq in Heq. congruence.
    + by rewrite Hab.
Qed.

Lemma split_at sep a b :
  sep ∉ JS.chars a ->
  JS.split sep (a +:+ String sep b) = a :: JS.split sep b.
Proof.
  intros Ha. destruct (split_head sep a (String sep b) Ha)
    as (seg & segs & Hb & ->).
  simpl in Hb. rewrite Ascii.eqb_refl in Hb. simplify_eq.
  by rewrite append_empty_r.
Qed.

(** X9. The path convention [<prefix>/<userId>/<postId>.<ext>]: when the
    prefix and the user id hold no [/] and the post id holds neither [/] nor
    [.], the id read from the key is the post id, whether the key ends
    after it or goes on with [.] or [/] and anything at all. *)
Theorem postId_of_conventional_key prefix userId postId tail :
  "/"%char ∉ JS.chars prefix ->
  "/"%char ∉ JS.chars userId ->
  "/"%char ∉ JS.chars postId ->
  "."%char ∉ JS.chars postId ->
  (tail = "" \/ (exists t, tail = String "." t) \/ (exists t, tail = String "/" t)) ->
  postId_of_key
    (prefix +:+ String "/" (userId +:+ String "/" (postId +:+ tail)))
  = inr postId.
Proof.
  intros Hprefix Huser Hslash Hdot Htail. unfold postId_of_key.
  rewrite (split_at _ _ _ Hprefix), (split_at _ _ _ Huser).
  destruct (split_head "/" postId tail Hslash) as (seg & segs & Hseg & ->).
  simpl. f_equal.
  destruct (split_head "." postId seg Hdot) as (seg' & segs' & Hseg' & ->).
  simpl.
  assert (seg' = "") as ->; [|apply append_empty_r].
  destruct Htail as [->|[[t ->]|[t ->]]]; simpl in Hseg.
  - simplify_eq. simpl in Hseg'. by simplify_eq.
  - destruct (JS.split "/" t) as [|s ss] eqn:Ht;
      [by apply split_nonempty in Ht|].
    simplify_eq. simpl in Hseg'. by simplify_eq.
  - simplify_eq. simpl in Hseg'. by simplify_eq.
Qed.

Lemma postId_of_conventional_key_witness :
  postId_of_key
    ("posts" +:+ String "/" ("u1" +:+ String "/" (Demo.post_id +:+ ".jpg")))
  = inr Demo.post_id.
Proof.
  apply (postId_of_conventional_key "posts" "u1" Demo.post_id ".jpg").
  - apply (bool_decide_unpack _). vm_compute. exact I.
  - apply (bool_decide_unpack _). vm_compute. exact I.
  - apply (bool_decide_unpack _). vm_compute. exact I.
  - apply (bool_decide_unpack _). vm_compute. exact I.
  - right. left. exists "jpg". reflexivity.
Defined.

Lemma tokens_without_escape s :
  "%"%char ∉ JS.chars s -> JS.tokens s = Some (JS.Lit <$> JS.chars s).
Proof.
  induction s as [|c s IH]; simpl; intros Hs; [done|].
  apply not_elem_of_cons in Hs as [Hc Hs].
  destruct (Ascii.eqb c "%") eqn:Heq.
  - apply Ascii.eqb_eq in Heq. congruence.
  - change (cons (JS.Lit c) <$> JS.tokens s
            = Some (JS.Lit c :: (JS.Lit <$> JS.chars s))).
    by rewrite (IH Hs).
Qed.

Lemma assemble_literals l : JS.assemble (JS.Lit <$> l) = Some l.
Proof.
  induction l as [|c l IH]; [done|].
  change (cons c <$> JS.assemble (JS.Lit <$> l) = Some (c :: l)).
  by rewrite IH.
Qed.

Lemma replace_plus_chars s c :
  c ∈ JS.chars (JS.replace_plus s) ->
  c <> "+"%char /\ (c ∈ JS.chars s \/ c = " "%char).
Proof.
  induction s as [|a s IH]; simpl; [by intros ?%elem_of_nil|].
  intros [->|Hc]%elem_of_cons.
  - destruct (Ascii.eqb a "+") eqn:Heq.
    + split; [done|by right].
    + apply Ascii.eqb_neq in Heq. split; [done|]. left. by left.
  - destruct (IH Hc) as [? [?|?]]; split; try done; [left; by right|by right].
Qed.

(** X10. A key without [%] is decoded to itself with every [+] replaced by
    a space: the decoded key holds no [+]. *)
Theorem key_without_escape record :
  "%"%char ∉ JS.chars (object_key record) ->
  key_of record = inr (JS.replace_plus (object_key record)) /\
  "+"%char ∉ JS.chars (JS.replace_plus (object_key record)).
Proof.
  intros Hkey. split.
  - unfold key_of, JS.decodeURIComponent.
    rewrite tokens_without_escape.
    + simpl. rewrite assemble_literals. unfold JS.str, JS.chars.
      by rewrite string_of_list_ascii_of_string.
    + intros [_ [H|H]]%replace_plus_chars; [done|discriminate].
  - by intros [H _]%replace_plus_chars.
Qed.

Lemma key_without_escape_witness :
  key_of (mkRecord "spotter-images" "posts/u1/my+photo.jpg")
  = inr (JS.replace_plus "posts/u1/my+photo.jpg") /\
  "+"%char ∉ JS.chars (JS.replace_plus "posts/u1/my+photo.jpg").
Proof.
  apply (key_without_escape (mkRecord "spotter-images" "posts/u1/my+photo.jpg")).
  apply (bool_decide_unpack _). vm_compute. exact I.
Defined.

Lemma hex_pair_replace_plus b :
  hex_pair b = false -> hex_pair (JS.replace_plus b) = false.
Proof.
  destruct b as [|h [|l b]]; simpl; try done.
  destruct (Ascii.eqb h "+") eqn:Hh.
  - done.
  - destruct (JS.hex_val h); [|done].
    destruct (Ascii.eqb l "+") eqn:Hl; [done|].
    by destruct (JS.hex_val l).
Qed.

Lemma tokens_bad_escape a b :
  "%"%char ∉ JS.chars a ->
  hex_pair b = false ->
  JS.tokens (JS.replace_plus (a +:+ String "%" b)) = None.
Proof.
  intros Ha Hb. apply hex_pair_replace_plus in Hb.
  induction a as [|c a IH]; simpl.
  - destruct (JS.replace_plus b) as [|h [|l b']]; try done.
    simpl in Hb.
    destruct (JS.hex_val h); [|done]. by destruct (JS.hex_val l).
  - apply not_elem_of_cons in Ha as [Hc Ha].
    destruct (Ascii.eqb c "+") eqn:Hplus; simpl.
    + by rewrite (IH Ha).
    + destruct (Ascii.eqb c "%") eqn:Heq.
      * apply Ascii.eqb_eq in Heq. congruence.
      * by rewrite (IH Ha).
Qed.

(** X11. A key in which the first [%] is not followed by two hexadecimal
    digits cannot be decoded: the loop body throws the [URIError] of
    [decodeURIComponent] before any call is made for the record, and the
    handler of a batch that holds such a record answers with status 500. *)
Theorem malformed_escape_fails_the_batch v E event record a b st :
  record ∈ Records event ->
  object_key record = a +:+ String "%" b ->
  "%"%char ∉ JS.chars a ->
  hex_pair b = false ->
  (forall st', loop_body_of v E record st' = (inl JS.URIError, st')) /\
  statusCode (handler_of v E event st).1 = 500%Z.
Proof.
  intros Hin Hkey Ha Hb.
  assert (key_of record = inl JS.URIError) as Hdecode.
  { unfold key_of, JS.decodeURIComponent.
    by rewrite Hkey, (tokens_bad_escape _ _ Ha Hb). }
  assert (forall st', loop_body_of v E record st' = (inl JS.URIError, st'))
    as Hbody.
  { intros st'. destruct v; simpl; unfold_body; by rewrite Hdecode. }
  split; [done|].
  rewrite handler_of_run. unfold run_handler, bind.
  destruct (connect E st) as [[e0|[]] st0]; [done|].
  destruct (for_of_throws (loop_body_of v E) record (Records event)
              (fun s => ex_intro _ JS.URIError (Hbody s)) Hin st0)
    as (e1 & st1 & ->).
  done.
Qed.

Lemma malformed_escape_fails_the_batch_witness :
  (forall st',
      loop_body_of Old Demo.env
        (mkRecord "spotter-images" "posts/u1/100%.jpg") st'
      = (inl JS.URIError, st')) /\
  statusCode
    (handler_of Old Demo.env
       (mkEvent [Demo.record1; mkRecord "spotter-images" "posts/u1/100%.jpg"])
       Demo.st0).1 = 500%Z.
Proof.
  apply (malformed_escape_fails_the_batch Old Demo.env
           (mkEvent [Demo.record1;
                     mkRecord "spotter-images" "posts/u1/100%.jpg"])
           (mkRecord "spotter-images" "posts/u1/100%.jpg")
           "posts/u1/100" ".jpg" Demo.st0).
  - repeat constructor.
  - reflexivity.
  - apply (bool_decide_unpack _). vm_compute. exact I.
  - reflexivity.
Defined.

(** ** The body of the response *)








(** ** Whole batches *)

Lemma skipped_records v E records :
  (forall t oid, posts_findOne E t oid = None) ->
  forall oids st,
    Forall2 (fun record oid =>
               resolves_to E record oid /\ posts st !! oid = None)
      records oids ->
    for_of (loop_body_of v E) records st
    = (inr tt,
       mkState (posts st) (index st) (drawn st)
         (trace st ++ (FindOne <$> oids))).
Proof.
  intros Hfind.
  induction records as [|record records IH]; intros oids st Hall.
  - apply Forall2_nil_inv_l in Hall as ->. simpl. unfold ret.
    rewrite app_nil_r. by destruct st.
  - apply Forall2_cons_inv_l in Hall
      as (oid & oids' & [(key & postId & Hkey & Hid & Hoid) Hnone] & Hall & ->).
    assert (loop_body_of v E record st = (inr tt, log (FindOne oid) st))
      as Hbody.
    { destruct v; simpl; unfold_body;
        by rewrite Hkey, Hid, Hoid, Hfind, Hnone. }
    simpl. unfold bind. rewrite Hbody.
    rewrite (IH oids' (log (FindOne oid) st) Hall). simpl.
    by rewrite <- app_assoc.
Qed.

(** X13. A batch in which every record names a valid id of no post (the
    empty batch among them) is answered with status 200 when the store can
    be reached: the handler makes one lookup for each record, in the order
    of the records, and nothing else between opening and closing the
    connection; the posts, the index and the identifiers drawn are as they
    were. *)
Theorem batch_of_missing_posts v E event oids st :
  mongo_connect E (now st) = None ->
  (forall t oid, posts_findOne E t oid = None) ->
  Forall2 (fun record oid =>
             resolves_to E record oid /\ posts st !! oid = None)
    (Records event) oids ->
  handler_of v E event st
  = (mkResponse 200 (JS.stringify_object [("success", JS.JBool true)]),
     mkState (posts st) (index st) (drawn st)
       (trace st ++ [MongoConnect] ++ (FindOne <$> oids) ++ [MongoClose])).
Proof.
  intros Hconnect Hfind Hall. rewrite handler_of_run.
  unfold run_handler, bind, connect. rewrite Hconnect.
  rewrite (skipped_records v E (Records event) Hfind oids
             (log MongoConnect st) Hall).
  unfold close, log. simpl. by rewrite <- !app_assoc.
Qed.

Lemma batch_of_missing_posts_witness :
  handler_of Bedrock Demo.env
    (mkEvent
       [mkRecord "spotter-images" "posts/u1/0123456789abcdef01234567.jpg";
        mkRecord "spotter-images" "posts/u2/89ABCDEF0123456789abcdef.png"])
    Demo.st0
  = (mkResponse 200 (JS.stringify_object [("success", JS.JBool true)]),
     mkState (posts Demo.st0) (index Demo.st0) (drawn Demo.st0)
       (trace Demo.st0 ++ [MongoConnect]
        ++ (FindOne <$> ["0123456789abcdef01234567";
                         "89abcdef0123456789abcdef"])
        ++ [MongoClose])).
Proof.
  apply (batch_of_missing_posts Bedrock Demo.env
           (mkEvent
              [mkRecord "spotter-images"
                 "posts/u1/0123456789abcdef01234567.jpg";
               mkRecord "spotter-images"
                 "posts/u2/89ABCDEF0123456789abcdef.png"])
           ["0123456789abcdef01234567"; "89abcdef0123456789abcdef"]
           Demo.st0).
  - reflexivity.
  - reflexivity.
  - repeat constructor.
    + exists "posts/u1/0123456789abcdef01234567.jpg",
        "0123456789abcdef01234567". repeat split; reflexivity.
    + exists "posts/u2/89ABCDEF0123456789abcdef.png",
        "89ABCDEF0123456789abcdef". repeat split; reflexivity.
Defined.

Lemma processed_kept_refl st : processed_kept st st.
Proof. intros oid d Hd Hs. eauto. Qed.

Lemma processed_kept_trans st1 st2 st3 :
  processed_kept st1 st2 -> processed_kept st2 st3 -> processed_kept st1 st3.
Proof.
  intros H1 H2 oid d Hd Hs.
  destruct (H1 _ _ Hd Hs) as (d' & Hd' & Hs'). eauto.
Qed.

#[local] Instance processed_kept_preorder : PreOrder processed_kept.
Proof.
  split; [intros ?; apply processed_kept_refl|intros ???; apply processed_kept_trans].
Qed.

Lemma processed_kept_set oid x field st ix n tr :
  field <> "status" ->
  processed_kept st
    (mkState
       (alter (apply_set [ ("status", BString "processed");
                           (field, BString x) ]) oid (posts st))
       ix n tr).
Proof.
  intros Hfield o d Hd Hs. simpl. rewrite lookup_alter. case_decide; [|eauto].
  subst. rewrite Hd. eexists. split; [reflexivity|].
  unfold apply_set. simpl.
  rewrite lookup_insert_ne by done. apply lookup_insert_eq.
Qed.

Lemma processed_kept_same_posts st ix n tr :
  processed_kept st (mkState (posts st) ix n tr).
Proof. intros oid d Hd Hs. eauto. Qed.

Lemma loop_body_processed_kept v E record :
  preserves processed_kept (loop_body_of v E record).
Proof.
  intros st r st' Hrun. destruct v; simpl in Hrun; exec Hrun.
  all: try apply processed_kept_refl.
  all: try apply processed_kept_same_posts.
  all: first [ by apply (processed_kept_set _ _ "embeddingId")
             | by apply (processed_kept_set _ _ "imageDescription") ].
Qed.

(** A loop that returns has marked every record whose post exists. *)
Lemma for_of_marks v E record key postId oid :
  key_of record = inr key ->
  postId_of_key key = inr postId ->
  ObjectId E postId = inr oid ->
  forall l st st' (post : doc),
    record ∈ l ->
    posts st !! oid = Some post ->
    for_of (loop_body_of v E) l st = (inr tt, st') ->
    exists post' : doc,
      posts st' !! oid = Some post' /\
      post' !! "status" = Some (BString "processed").
Proof.
  intros Hkey Hid Hoid.
  induction l as [|x rest IH]; intros st st' post Hin Hpost Hrun.
  { by apply elem_of_nil in Hin. }
  simpl in Hrun. unfold bind in Hrun.
  destruct (loop_body_of v E x st) as [[e|[]] s1] eqn:Hx; [done|].
  apply elem_of_cons in Hin as [<-|Hin].
  - destruct (processed_shape v E record key postId oid post st s1
                Hkey Hid Hoid Hpost Hx)
      as (p & set & calls & -> & _ & _ & _ & Hstatus).
    eapply (preserves_for_of processed_kept _ rest
              (loop_body_processed_kept v E) _ _ _ Hrun); [|exact Hstatus].
    simpl. by rewrite lookup_alter_eq, Hpost.
  - destruct (loop_body_partial_update v E x _ _ _ Hx) as (_ & Hsome & _).
    destruct (Hsome _ _ Hpost) as (post1 & Hpost1 & _).
    by apply (IH s1 st' post1).
Qed.

(** X14. When the identifiers drawn are pairwise distinct and a handler
    answers a batch with status 200, every record of the batch whose post
    existed has been processed: at the end of the run its post has [status]
    ["processed"] and the index holds a point whose payload has the id of
    the post as [postId]. *)
Theorem answered_200_processed_every_post
  v E event record key postId oid (post : doc) st :
  Inj (=) (=) (uuidv4 E) ->
  record ∈ Records event ->
  key_of record = inr key ->
  postId_of_key key = inr postId ->
  ObjectId E postId = inr oid ->
  posts st !! oid = Some post ->
  statusCode (handler_of v E event st).1 = 200%Z ->
  let st' := (handler_of v E event st).2 in
  (exists post' : doc,
      posts st' !! oid = Some post' /\
      post' !! "status" = Some (BString "processed")) /\
  exists p,
    index st' !! ("posts", point_id p) = Some p /\
    payload_get "postId" (point_payload p) = VBson (BString postId).
Proof.
  intros Hinj Hin Hkey Hid Hoid Hpost H200. rewrite handler_of_run in *.
  destruct (run_handler_ok _ _ _ _ H200) as (s1 & Hloop & Hs1).
  simpl. rewrite Hs1. simpl. split.
  - by apply (for_of_marks v E record key postId oid Hkey Hid Hoid
                _ (log MongoConnect st) s1 post Hin Hpost Hloop).
  - destruct (for_of_processes v E record key postId oid Hinj Hkey Hid Hoid
                _ (log MongoConnect st) s1 post Hin Hpost Hloop)
      as (p & n & _ & Hpayload & _ & _ & Hix).
    by exists p.
Qed.

Lemma answered_200_processed_every_post_witness :
  let st' := (handler_of Old Demo.env Demo.event1 Demo.st0).2 in
  (exists post' : doc,
      posts st' !! Demo.post_id = Some post' /\
      post' !! "status" = Some (BString "processed")) /\
  exists p,
    index st' !! ("posts", point_id p) = Some p /\
    payload_get "postId" (point_payload p) = VBson (BString Demo.post_id).
Proof.
  apply (answered_200_processed_every_post Old Demo.env Demo.event1
           Demo.record1 "posts/u1/65a1b2c3d4e5f60718293a4b.jpg"
           Demo.post_id Demo.post_id Demo.post1 Demo.st0).
  - exact nth_uuid_inj.
  - repeat constructor.
  - reflexivity.
  - reflexivity.
  - reflexivity.
  - reflexivity.
  - vm_compute. reflexivity.
Defined.

(** ** The image that is described *)

Lemma lookup_added (l k : list call) i :
  (l ++ k) !! (length l + i) = k !! i.
Proof. rewrite lookup_app_r by lia. f_equal. lia. Qed.

(** X15. The describe call of a record carries the image of that record:
    it is made right after the fetch of the object that the bucket and the
    decoded key of the record name, only when S3 answered and the stream of
    the object ended without an error, and it carries all the chunks of the
    stream, in order, with the fixed limits of the handler (at most 10
    labels of confidence 75 or more; or the image as a base64 data url for
    gpt-4o-mini). *)
Theorem describer_gets_the_fetched_image v E record st r st' t c :
  loop_body_of v E record st = (r, st') ->
  now st <= t ->
  trace st' !! t = Some c ->
  stage c = Some 2 ->
  exists key stream,
    key_of record = inr key /\
    trace st' !! (t - 1)
    = Some (S3Send (mkGetObject (bucket_name record) key)) /\
    s3_send E (t - 1) (mkGetObject (bucket_name record) key) = inr stream /\
    stream_error stream = None /\
    match c with
    | RekognitionSend cmd =>
        cmd = mkDetectLabels (concat (chunks stream)) 10 75
    | ChatCompletionsCreate req =>
        req = mkChat "gpt-4o-mini" IndexOld.system_prompt IndexOld.user_prompt
                ("data:image/jpeg;base64,"
                 +:+ JS.base64 (concat (chunks stream)))
    | _ => False
    end.
Proof.
  intros Hrun Ht Hc Hstage. unfold now in Ht.
  destruct v; simpl in Hrun; exec Hrun.
  all: try (apply lookup_lt_Some in Hc; lia).
  all: destruct (lookup_after _ _ _ _ Ht Hc) as (i & -> & Hi); clear Hc Ht.
  all: unfold now in *; simpl in *; rewrite ?length_app in *; simpl in *.
  all: do 7 (try destruct i as [|i]); simplify_eq/=.
  all: eexists _, _; split; [reflexivity|].
  all: match goal with
       | |- context [?n + 2 - 1] => replace (n + 2 - 1) with (n + 1) by lia
       end.
  all: rewrite lookup_added; simpl.
  all: repeat split; try eassumption; reflexivity.
Qed.

Lemma describer_gets_the_fetched_image_witness :
  exists key stream,
    key_of Demo.record1 = inr key /\
    trace (loop_body_of Old Demo.env Demo.record1 Demo.st0).2 !! (2 - 1)
    = Some (S3Send (mkGetObject (bucket_name Demo.record1) key)) /\
    s3_send Demo.env (2 - 1) (mkGetObject (bucket_name Demo.record1) key)
    = inr stream /\
    stream_error stream = None /\
    mkChat "gpt-4o-mini" IndexOld.system_prompt IndexOld.user_prompt
      "data:image/jpeg;base64,/9j/"
    = mkChat "gpt-4o-mini" IndexOld.system_prompt IndexOld.user_prompt
        ("data:image/jpeg;base64," +:+ JS.base64 (concat (chunks stream))).
Proof.
  apply (describer_gets_the_fetched_image Old Demo.env Demo.record1 Demo.st0
           (inr tt) (loop_body_of Old Demo.env Demo.record1 Demo.st0).2 2
           (ChatCompletionsCreate
              (mkChat "gpt-4o-mini" IndexOld.system_prompt
                 IndexOld.user_prompt "data:image/jpeg;base64,/9j/"))).
  - vm_compute. reflexivity.
  - vm_compute. lia.
  - vm_compute. reflexivity.
  - reflexivity.
Defined.

(** ** The points that were in the index *)

(** X16. A run of a handler removes no point from the index: a point that
    was in the index is still there after the run, unless it is stored in
    ["posts"] under an identifier drawn during the run; points of other
    collections are never touched. *)
Theorem handler_keeps_the_index v E event st key p :
  index st !! key = Some p ->
  let st' := (handler_of v E event st).2 in
  (index st' !! key = Some p \/
   exists n, drawn st <= n < drawn st' /\ key = ("posts", uuidv4 E n)) /\
  (key.1 <> "posts" -> index st' !! key = Some p).
Proof.
  intros Hp.
  assert (index_kept E st (handler_of v E event st).2) as [_ Hkept].
  { rewrite handler_of_run. apply (preserves_run_handler (index_kept E)).
    - intros s. unfold log. by apply index_kept_same.
    - intros s. unfold log. by apply index_kept_same.
    - apply loop_body_index_kept. }
  simpl. destruct (Hkept _ _ Hp) as [H|(n & Hn & ->)].
  - split; [by left|done].
  - split; [right; eauto|]. simpl. done.
Qed.

Lemma handler_keeps_the_index_witness :
  let st := (handler_of Bedrock Demo.env Demo.event1 Demo.st0).2 in
  let p := mkPoint "uuid-0" (Some Demo.embedding)
             (IndexWithBedrock.payload_of Demo.post_id (VBson (BString "u1"))
                (BString "sunset") "A imagem contém: sky, cloud.") in
  let st' := (handler_of Bedrock Demo.env Demo.event1 st).2 in
  (index st' !! ("posts", "uuid-0") = Some p \/
   exists n,
     drawn st <= n < drawn st' /\
     ("posts", "uuid-0") = ("posts", uuidv4 Demo.env n)) /\
  (("posts", "uuid-0").1 <> "posts" ->
   index st' !! ("posts", "uuid-0") = Some p).
Proof.
  apply (handler_keeps_the_index Bedrock Demo.env Demo.event1
           (handler_of Bedrock Demo.env Demo.event1 Demo.st0).2
           ("posts", "uuid-0")).
  vm_compute. reflexivity.
Defined.
